(** * Blackjack round engine (HW1/blackjack.py): model and verification

    The class [BlackjackEnv] is embedded in two layers.

    - Hand evaluation ([usable_ace], [sum_hand], [is_bust], [score], [cmp],
      [is_natural]) is pure: each method becomes a function over [list Z].
    - Everything that touches [self.player], [self.dealer], [self.deck3] or
      the random source is written in a small state-and-exception monad over
      a store of Python list objects.  Hands and the shoe are mutable lists
      reached through references, [reset(state)] adopts the caller's lists by
      reference and [get_state] deep-copies them, so the store keeps track of
      which list object every reference points to.

    Rewards are binary64 floats, as in the source ([-1.], [0.], [1.5], the
    result of [cmp]). *)

From Stdlib Require Import ZArith List Lia Floats Bool.
From Stdlib Require Import Sorting.Permutation Sorting.Sorted.
From stdpp Require Import base list.

Open Scope Z_scope.

(* ===================================================================== *)
(** ** Python built-ins used by the class *)
(* ===================================================================== *)

(** [sum(hand)]: left-to-right addition starting from 0. *)
Definition sum (hand : list Z) : Z := fold_left Z.add hand 0.

(** [x in hand]. *)
Definition contains (x : Z) (hand : list Z) : bool := existsb (Z.eqb x) hand.

(** [sorted(hand)] on integers: the ascending rearrangement of the list.
    Written as insertion sort; [sorted_perm] and [sorted_sorted] below show
    that it is the sorted permutation, which is all [sorted] is on ints. *)
Fixpoint insert_sorted (x : Z) (l : list Z) : list Z :=
  match l with
  | [] => [x]
  | y :: t => if x <=? y then x :: y :: t else y :: insert_sorted x t
  end.

Fixpoint sorted (hand : list Z) : list Z :=
  match hand with
  | [] => []
  | x :: t => insert_sorted x (sorted t)
  end.

(** [a == b] on lists of ints. *)
Fixpoint list_eqb (a b : list Z) : bool :=
  match a, b with
  | [], [] => true
  | x :: a', y :: b' => (x =? y) && list_eqb a' b'
  | _, _ => false
  end.

(** [float(b)] for a bool. *)
Definition float_of_bool (b : bool) : float := if b then 1%float else 0%float.

(* ===================================================================== *)
(** ** Hand evaluation (pure methods) *)
(* ===================================================================== *)

(** [usable_ace]: [1 in hand and sum(hand) + 10 <= 21]. *)
Definition usable_ace (hand : list Z) : bool :=
  contains 1 hand && (sum hand + 10 <=? 21).

(** [sum_hand]: the hand total. *)
Definition sum_hand (hand : list Z) : Z :=
  if usable_ace hand then sum hand + 10 else sum hand.

(** [is_bust]: [sum_hand(hand) > 21]. *)
Definition is_bust (hand : list Z) : bool := sum_hand hand >? 21.

(** [score]: [0 if is_bust(hand) else sum_hand(hand)]. *)
Definition score (hand : list Z) : Z :=
  if is_bust hand then 0 else sum_hand hand.

(** [cmp]: [float(a > b) - float(a < b)]. *)
Definition cmp (a b : Z) : float :=
  PrimFloat.sub (float_of_bool (a >? b)) (float_of_bool (a <? b)).

(** [is_natural]: [sorted(hand) == [1, 10]]. *)
Definition is_natural (hand : list Z) : bool := list_eqb (sorted hand) [1; 10].

(* ===================================================================== *)
(** ** The store of list objects and the effect monad *)
(* ===================================================================== *)

(** A reference to a Python list object: its index in the store. *)
Abbreviation loc := nat (only parsing).

(** The exceptions the class can raise.  [ReferenceError] stands for a
    reference to no object; Python never produces one, and no state built by
    the class contains one. *)
Inductive exn := AssertionError | IndexError | ValueError | ReferenceError.

(** What a call produces: a value, a raised exception, or no answer within
    the given number of loop iterations. *)
Inductive result (A : Type) : Type :=
| Ok (a : A)
| Raise (e : exn)
| OutOfFuel.
Arguments Ok {A} a.
Arguments Raise {A} e.
Arguments OutOfFuel {A}.

(** The instance attributes of a [BlackjackEnv] together with the store its
    list attributes point into.  [np_random] is the random source, read as
    the sequence of raw values it will yield. *)
Record World := mkWorld {
  heap : list (list Z);
  np_random : nat -> nat;
  natural : bool;
  deck : loc;
  deck3 : loc;
  player : loc;
  dealer : loc
}.

Definition with_heap (h : list (list Z)) (w : World) : World :=
  mkWorld h (np_random w) (natural w) (deck w) (deck3 w) (player w) (dealer w).
Definition with_np_random (g : nat -> nat) (w : World) : World :=
  mkWorld (heap w) g (natural w) (deck w) (deck3 w) (player w) (dealer w).
Definition with_natural (b : bool) (w : World) : World :=
  mkWorld (heap w) (np_random w) b (deck w) (deck3 w) (player w) (dealer w).
Definition with_deck (l : loc) (w : World) : World :=
  mkWorld (heap w) (np_random w) (natural w) l (deck3 w) (player w) (dealer w).
Definition with_deck3 (l : loc) (w : World) : World :=
  mkWorld (heap w) (np_random w) (natural w) (deck w) l (player w) (dealer w).
Definition with_player (l : loc) (w : World) : World :=
  mkWorld (heap w) (np_random w) (natural w) (deck w) (deck3 w) l (dealer w).
Definition with_dealer (l : loc) (w : World) : World :=
  mkWorld (heap w) (np_random w) (natural w) (deck w) (deck3 w) (player w) l.

(** Computations: state passing, with the state kept when an exception is
    raised (what was mutated before the raise stays mutated). *)
Definition M (A : Type) : Type := World -> result A * World.

Definition ret {A} (a : A) : M A := fun w => (Ok a, w).

Definition bind {A B} (c : M A) (k : A -> M B) : M B :=
  fun w =>
    match c w with
    | (Ok a, w') => k a w'
    | (Raise e, w') => (Raise e, w')
    | (OutOfFuel, w') => (OutOfFuel, w')
    end.

Definition raise {A} (e : exn) : M A := fun w => (Raise e, w).
Definition diverge {A} : M A := fun w => (OutOfFuel, w).

Notation "x <- c ;; k" := (bind c (fun x => k))
  (at level 100, c at next level, right associativity).
Notation "c ;; k" := (bind c (fun _ => k))
  (at level 100, right associativity).

(** Reading an attribute [self.f]. *)
Definition attr {A} (f : World -> A) : M A := fun w => (Ok (f w), w).
(** Assigning an attribute. *)
Definition assign (f : World -> World) : M unit := fun w => (Ok tt, f w).

(** The list a reference points to. *)
Definition load (l : loc) : M (list Z) :=
  fun w =>
    match heap w !! l with
    | Some v => (Ok v, w)
    | None => (Raise ReferenceError, w)
    end.

(** In-place replacement of the contents of a list object. *)
Definition store (l : loc) (v : list Z) : M unit :=
  fun w => (Ok tt, with_heap (<[l := v]> (heap w)) w).

(** A new list object. *)
Definition alloc (v : list Z) : M loc :=
  fun w => (Ok (length (heap w)), with_heap (heap w ++ [v]) w).

(** [assert b]. *)
Definition assert_ (b : bool) : M unit :=
  if b then ret tt else raise AssertionError.

(** [l.append(x)]. *)
Definition append (l : loc) (x : Z) : M unit :=
  v <- load l ;; store l (v ++ [x]).

(** The list without its first element equal to [x]; [None] when there is
    none. *)
Fixpoint remove_first (x : Z) (v : list Z) : option (list Z) :=
  match v with
  | [] => None
  | y :: t =>
      if x =? y then Some t
      else match remove_first x t with
           | Some t' => Some (y :: t')
           | None => None
           end
  end.

(** [l.remove(x)]: removes the first occurrence, [ValueError] without one. *)
Definition remove (l : loc) (x : Z) : M unit :=
  v <- load l ;;
  match remove_first x v with
  | Some v' => store l v'
  | None => raise ValueError
  end.

(** [l * n] on lists: a new list, [n] copies of [l] in a row. *)
Fixpoint list_mul (l : list Z) (n : nat) : list Z :=
  match n with
  | O => []
  | S k => l ++ list_mul l k
  end.

(** [np_random.choice(a)]: the element at a position picked by the random
    source among the [len(a)] positions; [ValueError] on an empty list.  The
    next raw value of the source, reduced modulo [len(a)], is the position. *)
Definition choice (a : list Z) : M Z :=
  fun w =>
    match a with
    | [] => (Raise ValueError, w)
    | x :: _ =>
        (Ok (nth (np_random w O mod length a)%nat a x),
         with_np_random (fun k => np_random w (S k)) w)
    end.

(** [while cond: body], cut off after [fuel] iterations. *)
Fixpoint while (fuel : nat) (cond : M bool) (body : M unit) : M unit :=
  match fuel with
  | O => b <- cond ;; if b : bool then diverge else ret tt
  | S n => b <- cond ;; if b : bool then body ;; while n cond body else ret tt
  end.

(** [deepcopy] of one list of ints: a new object with the same contents. *)
Definition copy (l : loc) : M loc := v <- load l ;; alloc v.

(* ===================================================================== *)
(** ** The class BlackjackEnv *)
(* ===================================================================== *)

(** [spaces.Discrete(3).contains(action)] for an int (gym is outside the
    repository): [0 <= action < 3]. *)
Definition action_space_contains (action : Z) : bool :=
  (0 <=? action) && (action <? 3).

(** The list literal assigned to [self.deck] in [__init__]. *)
Definition deck_literal : list Z := [1; 2; 3; 4; 5; 6; 7; 8; 9; 10; 10; 10; 10].

Definition draw_card : M Z :=
  d3 <- attr deck3 ;;
  cards <- load d3 ;;
  (if (length cards <=? 15)%nat
   then dk <- attr deck ;;
        base <- load dk ;;
        fresh <- alloc (list_mul base 3) ;;
        assign (with_deck3 fresh)
   else ret tt) ;;
  d3 <- attr deck3 ;;
  cards <- load d3 ;;
  card <- choice cards ;;
  remove d3 card ;;
  ret card.

Definition draw_hand : M loc :=
  c1 <- draw_card ;;
  c2 <- draw_card ;;
  alloc [c1; c2].

Definition observation : Type := Z * Z * bool.

Definition _get_obs : M observation :=
  p <- attr player ;;
  ph <- load p ;;
  d <- attr dealer ;;
  dh <- load d ;;
  match dh with
  | [] => raise IndexError
  | upcard :: _ => ret (sum_hand ph, upcard, usable_ace ph)
  end.

(** [_get_obs_with_deck]: the observation with a fourth item, the floored
    mean of the cards left in the shoe and the dealer's second card. *)
Definition _get_obs_with_deck : M (Z * Z * bool * Z) :=
  d3 <- attr deck3 ;;
  cards <- load d3 ;;
  d <- attr dealer ;;
  dh <- load d ;;
  match dh !! 1%nat with
  | None => raise IndexError
  | Some hole =>
      let sum_cards := sum cards + hole in
      d3 <- attr deck3 ;;
      cards <- load d3 ;;
      let count_cards := Z.of_nat (length cards) + 1 in
      p <- attr player ;;
      ph <- load p ;;
      d <- attr dealer ;;
      dh <- load d ;;
      match dh with
      | [] => raise IndexError
      | upcard :: _ =>
          ret (sum_hand ph, upcard, usable_ace ph, sum_cards / count_cards)
      end
  end.

(** The loop shared by the stand and double branches:
    [while self.sum_hand(self.dealer) < 17: self.dealer.append(self.draw_card())]. *)
Definition play_dealer (fuel : nat) : M unit :=
  while fuel
    (d <- attr dealer ;; dh <- load d ;; ret (sum_hand dh <? 17))
    (d <- attr dealer ;; c <- draw_card ;; append d c).

Definition step (fuel : nat) (action : Z) : M (observation * float * bool) :=
  assert_ (action_space_contains action) ;;
  rd <- (if action =? 1 then
           p <- attr player ;;
           c <- draw_card ;;
           append p c ;;
           p <- attr player ;;
           ph <- load p ;;
           if is_bust ph then ret ((-1)%float, true) else ret (0%float, false)
         else if action =? 2 then
           p <- attr player ;;
           c <- draw_card ;;
           append p c ;;
           play_dealer fuel ;;
           p <- attr player ;;
           ph <- load p ;;
           d <- attr dealer ;;
           dh <- load d ;;
           ret (PrimFloat.mul 2 (cmp (score ph) (score dh)), true)
         else
           play_dealer fuel ;;
           p <- attr player ;;
           ph <- load p ;;
           d <- attr dealer ;;
           dh <- load d ;;
           let reward := cmp (score ph) (score dh) in
           nat <- attr natural ;;
           if nat && is_natural ph && PrimFloat.eqb reward 1
           then ret (1.5%float, true)
           else ret (reward, true)) ;;
  obs <- _get_obs ;;
  ret (obs, fst rd, snd rd).

(** [reset(state)]; [state] is [None] or a list whose first three items are
    references to the player's hand, the dealer's hand and the shoe. *)
Definition reset (state : option (loc * loc * loc)) : M observation :=
  match state with
  | Some (p, d, s) =>
      assign (with_player p) ;;
      assign (with_dealer d) ;;
      assign (with_deck3 s)
  | None =>
      p <- draw_hand ;;
      assign (with_player p) ;;
      d <- draw_hand ;;
      assign (with_dealer d)
  end ;;
  _get_obs.

(** [get_state]: [deepcopy([self.player, self.dealer, self.deck3])].  Every
    list object is copied once; a list that occurs twice in the argument
    occurs twice, as one object, in the copy. *)
Definition get_state : M (loc * loc * loc) :=
  p <- attr player ;;
  d <- attr dealer ;;
  s <- attr deck3 ;;
  p' <- copy p ;;
  d' <- (if (d =? p)%nat then ret p' else copy d) ;;
  s' <- (if (s =? p)%nat then ret p'
         else if (s =? d)%nat then ret d' else copy s) ;;
  ret (p', d', s').

(** [__init__(natural)], run on a new object: the attributes are set, the
    two deck lists are created and the first round is dealt. *)
Definition __init__ (nat : bool) : M unit :=
  assign (with_natural nat) ;;
  dk <- alloc deck_literal ;;
  assign (with_deck dk) ;;
  base <- load dk ;;
  d3 <- alloc (list_mul base 3) ;;
  assign (with_deck3 d3) ;;
  reset None ;;
  ret tt.

(** An object before [__init__] has run, with its random source seeded. *)
Definition blank (g : nat -> nat) : World := mkWorld [] g false O O O O.

(* ===================================================================== *)
(** ** Vocabulary of the statements *)
(* ===================================================================== *)

(** [l] refers to an existing list object. *)
Definition allocated (w : World) (l : loc) : Prop := (l < length (heap w))%nat.

(** An instance as [__init__], [reset()] and [reset(get_state())] leave it:
    [self.deck] still holds its literal, and the four list attributes are
    four different, existing objects. *)
Record wf (w : World) : Prop := mk_wf {
  wf_deck : heap w !! deck w = Some deck_literal;
  wf_deck3 : allocated w (deck3 w);
  wf_player : allocated w (player w);
  wf_dealer : allocated w (dealer w);
  wf_deck_deck3 : deck w <> deck3 w;
  wf_deck_player : deck w <> player w;
  wf_deck_dealer : deck w <> dealer w;
  wf_deck3_player : deck3 w <> player w;
  wf_deck3_dealer : deck3 w <> dealer w;
  wf_player_dealer : player w <> dealer w
}.

(** The composition a draw picks from, given the shoe it finds: a shoe of at
    most 15 cards is replaced by three decks first. *)
Definition shoe_at_pick (cards : list Z) : list Z :=
  if (length cards <=? 15)%nat then list_mul deck_literal 3 else cards.

(** What one call of [draw_card] does to an instance: the card [c] sits at
    the position the random source picked in the composition of
    [shoe_at_pick], one instance of it is removed, the shoe attribute points
    to the result, and no other list object changes. *)
Record drew (w : World) (c : Z) (w' : World) : Prop := mk_drew {
  drew_card :
    exists cards shoe',
      heap w !! deck3 w = Some cards /\
      shoe_at_pick cards
        !! (np_random w O mod length (shoe_at_pick cards))%nat = Some c /\
      remove_first c (shoe_at_pick cards) = Some shoe' /\
      heap w' !! deck3 w' = Some shoe' /\
      (if (length cards <=? 15)%nat
       then deck3 w' = length (heap w) /\ length (heap w') = S (length (heap w))
       else deck3 w' = deck3 w /\ length (heap w') = length (heap w));
  drew_frame : forall l, l <> deck3 w' -> heap w' !! l = heap w !! l;
  drew_np_random : np_random w' = fun k => np_random w (S k);
  drew_natural : natural w' = natural w;
  drew_deck : deck w' = deck w;
  drew_player : player w' = player w;
  drew_dealer : dealer w' = dealer w
}.

(** The dealer policy as the specification words it: while the dealer's
    total is below 17, one card is drawn and appended to the dealer's hand. *)
Inductive dealer_plays : World -> World -> Prop :=
| dealer_stops w dh :
    heap w !! dealer w = Some dh ->
    17 <= sum_hand dh ->
    dealer_plays w w
| dealer_draws w dh c w1 w2 w3 :
    heap w !! dealer w = Some dh ->
    sum_hand dh < 17 ->
    draw_card w = (Ok c, w1) ->
    append (dealer w) c w1 = (Ok tt, w2) ->
    dealer_plays w2 w3 ->
    dealer_plays w w3.

(** [n] calls of [draw_card] in a row, with the cards they return. *)
Fixpoint draw_cards (n : nat) : M (list Z) :=
  match n with
  | O => ret []
  | S k => c <- draw_card ;; cs <- draw_cards k ;; ret (c :: cs)
  end.

(** The calls a client can make on an instance. *)
Inductive call :=
| Step (fuel : nat) (action : Z)
| Reset (state : option (loc * loc * loc))
| DrawCard
| DrawHand
| GetState.

(** The instance and store after a call, whatever it returned or raised. *)
Definition exec (c : call) (w : World) : World :=
  match c with
  | Step fuel action => snd (step fuel action w)
  | Reset state => snd (reset state w)
  | DrawCard => snd (draw_card w)
  | DrawHand => snd (draw_hand w)
  | GetState => snd (get_state w)
  end.

Definition exec_all (cs : list call) (w : World) : World :=
  fold_left (fun w c => exec c w) cs w.

(** What a snapshot holds: the contents of its three lists. *)
Definition snapshot_value (w : World) (snap : loc * loc * loc)
  : option (list Z) * option (list Z) * option (list Z) :=
  let '(p, d, s) := snap in (heap w !! p, heap w !! d, heap w !! s).

Definition in_snapshot (snap : loc * loc * loc) (l : loc) : bool :=
  let '(p, d, s) := snap in (l =? p)%nat || (l =? d)%nat || (l =? s)%nat.

(** The call does not hand a list of the snapshot to [reset]. *)
Definition keeps_clear (snap : loc * loc * loc) (c : call) : bool :=
  match c with
  | Reset (Some (p, d, s)) =>
      negb (in_snapshot snap p || in_snapshot snap d || in_snapshot snap s)
  | _ => true
  end.

(** The instance holds no reference into the snapshot, and the snapshot's
    lists exist. *)
Definition clear_of (snap : loc * loc * loc) (w : World) : Prop :=
  in_snapshot snap (player w) = false /\
  in_snapshot snap (dealer w) = false /\
  in_snapshot snap (deck3 w) = false /\
  forall l, in_snapshot snap l = true -> allocated w l.

(** A computation respects the snapshot: run on an instance that is clear of
    it, it leaves an instance that is clear of it and the snapshot's lists as
    they were, and a value it returns satisfies [Q]. *)
Definition frame (snap : loc * loc * loc) {A} (c : M A) (Q : A -> Prop) : Prop :=
  forall w, clear_of snap w ->
    clear_of snap (snd (c w)) /\
    (forall l, in_snapshot snap l = true -> heap (snd (c w)) !! l = heap w !! l) /\
    (forall a, fst (c w) = Ok a -> Q a).

(** Instances used as concrete inputs: a seeded new table with the natural
    payout on, and the same table after its state was saved and restored. *)
Definition seeded : nat -> nat := fun k => nth k [0; 9; 3; 12; 5]%nat 7%nat.
Definition table : World := snd (__init__ true (blank seeded)).

(** A card value of the decks. *)
Definition rank (c : Z) : Prop := 1 <= c <= 10.

(** The shoe and both hands hold card values only. *)
Definition ranked (w : World) : Prop :=
  forall l v,
    l = deck3 w \/ l = player w \/ l = dealer w ->
    heap w !! l = Some v -> Forall rank v.

(** The store has only grown from [w] to [w']: every list that existed and
    was not the shoe is as it was, the shoe attribute points where it did or
    to a list made since, and [deck] and [natural] are the same. *)
Definition grows (w w' : World) : Prop :=
  (length (heap w) <= length (heap w'))%nat /\
  (forall l, allocated w l -> l <> deck3 w -> heap w' !! l = heap w !! l) /\
  (deck3 w' = deck3 w \/ (length (heap w) <= deck3 w')%nat) /\
  deck w' = deck w /\
  natural w' = natural w.

(** The rewards [step] hands out. *)
Definition is_reward (r : float) : Prop :=
  r = (-2)%float \/ r = (-1)%float \/ r = 0%float \/
  r = 1%float \/ r = 1.5%float \/ r = 2%float.

(* ===================================================================== *)
(** ** Facts about the built-ins *)
(* ===================================================================== *)

Section Builtins.

Lemma fold_add_shift (l : list Z) (a : Z) :
  fold_left Z.add l a = a + fold_left Z.add l 0.
Proof.
  revert a. induction l as [|x l IH]; intros a; simpl.
  - lia.
  - rewrite (IH (a + x)), (IH (0 + x)). lia.
Qed.

Lemma sum_nil : sum [] = 0.
Proof. reflexivity. Qed.

Lemma sum_cons (x : Z) (l : list Z) : sum (x :: l) = x + sum l.
Proof. unfold sum. simpl. apply fold_add_shift. Qed.

Lemma sum_app (l k : list Z) : sum (l ++ k) = sum l + sum k.
Proof.
  induction l as [|x l IH]; simpl.
  - rewrite sum_nil. lia.
  - rewrite !sum_cons, IH. lia.
Qed.

Lemma sum_snoc (l : list Z) (c : Z) : sum (l ++ [c]) = sum l + c.
Proof. rewrite sum_app, sum_cons, sum_nil. lia. Qed.

Lemma contains_In (x : Z) (l : list Z) : contains x l = true <-> In x l.
Proof.
  unfold contains. rewrite existsb_exists. split.
  - intros [y [Hy Heq]]. apply Z.eqb_eq in Heq. now subst.
  - intros H. exists x. split; [assumption | apply Z.eqb_refl].
Qed.

Lemma list_eqb_eq (a b : list Z) : list_eqb a b = true <-> a = b.
Proof.
  revert b. induction a as [|x a IH]; intros [|y b]; simpl;
    try (split; [discriminate | congruence]); try tauto.
  rewrite andb_true_iff, Z.eqb_eq, IH. split.
  - intros [-> ->]. reflexivity.
  - intros H. injection H. tauto.
Qed.

Lemma insert_sorted_perm (x : Z) (l : list Z) :
  Permutation (x :: l) (insert_sorted x l).
Proof.
  induction l as [|y t IH]; simpl.
  - apply Permutation_refl.
  - destruct (x <=? y).
    + apply Permutation_refl.
    + apply perm_trans with (y :: x :: t).
      * apply perm_swap.
      * apply perm_skip, IH.
Qed.

Lemma sorted_perm (l : list Z) : Permutation l (sorted l).
Proof.
  induction l as [|x t IH]; simpl.
  - apply perm_nil.
  - apply perm_trans with (x :: sorted t).
    + apply perm_skip, IH.
    + apply insert_sorted_perm.
Qed.

Lemma insert_sorted_hd (x a : Z) (l : list Z) :
  a <= x -> HdRel Z.le a l -> HdRel Z.le a (insert_sorted x l).
Proof.
  intros Hax Hl. destruct l as [|y t]; simpl.
  - constructor. exact Hax.
  - destruct (x <=? y); constructor.
    + exact Hax.
    + inversion Hl. assumption.
Qed.

Lemma insert_sorted_sorted (x : Z) (l : list Z) :
  Sorted Z.le l -> Sorted Z.le (insert_sorted x l).
Proof.
  induction l as [|y t IH]; intros Hs; simpl.
  - repeat constructor.
  - inversion Hs as [|? ? Ht Hhd]; subst.
    destruct (x <=? y) eqn:E.
    + constructor; [exact Hs | constructor; lia].
    + constructor; [apply IH, Ht | apply insert_sorted_hd; [lia | exact Hhd]].
Qed.

Lemma sorted_sorted (l : list Z) : Sorted Z.le (sorted l).
Proof.
  induction l as [|x t IH]; simpl.
  - constructor.
  - apply insert_sorted_sorted, IH.
Qed.

End Builtins.

(* ===================================================================== *)
(** ** Hand evaluation *)
(* ===================================================================== *)

Section HandEvaluation.

Lemma sum_le_sum_hand (h : list Z) : sum h <= sum_hand h.
Proof. unfold sum_hand. destruct (usable_ace h); lia. Qed.

Lemma usable_ace_true (h : list Z) :
  usable_ace h = true <-> In 1 h /\ sum h + 10 <= 21.
Proof.
  unfold usable_ace. rewrite andb_true_iff, contains_In, Z.leb_le. tauto.
Qed.

Lemma cmp_cases (a b : Z) :
  (a > b /\ cmp a b = 1%float) \/
  (a = b /\ cmp a b = 0%float) \/
  (a < b /\ cmp a b = (-1)%float).
Proof.
  unfold cmp.
  destruct (Z.lt_trichotomy a b) as [H | [H | H]].
  - right. right. split; [exact H |].
    replace (a >? b) with false by lia. replace (a <? b) with true by lia.
    reflexivity.
  - right. left. split; [exact H |].
    replace (a >? b) with false by lia. replace (a <? b) with false by lia.
    reflexivity.
  - left. split; [lia |].
    replace (a >? b) with true by lia. replace (a <? b) with false by lia.
    reflexivity.
Qed.

Lemma sorted_length (h : list Z) : length (sorted h) = length h.
Proof. symmetry. apply Permutation_length, sorted_perm. Qed.

Lemma is_natural_true (h : list Z) :
  is_natural h = true <-> h = [1; 10] \/ h = [10; 1].
Proof.
  unfold is_natural. rewrite list_eqb_eq. split.
  - intros Hs.
    assert (Hlen : length h = 2%nat) by (rewrite <- sorted_length, Hs; reflexivity).
    destruct h as [|a [|b [|c t]]]; try discriminate Hlen.
    simpl in Hs. destruct (a <=? b) eqn:E.
    + left. exact Hs.
    + right. injection Hs as -> ->. reflexivity.
  - intros [-> | ->]; reflexivity.
Qed.

End HandEvaluation.

(** C5. The usable-ace test holds exactly for the hands that contain a card 1
    and whose plain sum plus 10 is at most 21.  The hand total is the plain
    sum plus 10 under that test and the plain sum otherwise, so whatever the
    number of aces the total exceeds the plain sum by 0 or by 10 (one ace at
    most counts 11), and a total with a usable ace is at most 21. *)
Theorem usable_ace_sum_hand_spec (h : list Z) :
  (usable_ace h = true <-> In 1 h /\ sum h + 10 <= 21) /\
  sum_hand h = (if usable_ace h then sum h + 10 else sum h) /\
  (sum_hand h = sum h \/ sum_hand h = sum h + 10) /\
  (forall k : nat, sum_hand (repeat 1 k ++ h) <= sum (repeat 1 k ++ h) + 10) /\
  (usable_ace h = true -> sum_hand h = sum h + 10 /\ sum_hand h <= 21).
Proof.
  split; [apply usable_ace_true |].
  split; [reflexivity |].
  split; [unfold sum_hand; destruct (usable_ace h); tauto |].
  split.
  - intros k. unfold sum_hand. destruct (usable_ace (repeat 1 k ++ h)); lia.
  - intros Hu. unfold sum_hand. rewrite Hu. split; [reflexivity |].
    apply usable_ace_true in Hu. lia.
Qed.

(** C6. A hand is bust exactly when its total exceeds 21; the score is 0 for
    a bust hand and the total otherwise; so a bust hand scores 0 and no score
    exceeds 21. *)
Theorem score_spec (h : list Z) :
  (is_bust h = true <-> sum_hand h > 21) /\
  score h = (if is_bust h then 0 else sum_hand h) /\
  (is_bust h = true -> score h = 0) /\
  score h <= 21.
Proof.
  unfold score, is_bust.
  split; [rewrite Z.gtb_gt; tauto |].
  split; [reflexivity |].
  split.
  - intros ->. reflexivity.
  - destruct (sum_hand h >? 21) eqn:E; lia.
Qed.

(** C7. A hand is a natural exactly when it has two cards and its sorted
    ranks are [1, 10], that is when it is [1, 10] or [10, 1]; [1, 10, 1] and
    [5, 6] are not naturals. *)
Theorem is_natural_spec (h : list Z) :
  (is_natural h = true <-> length h = 2%nat /\ sorted h = [1; 10]) /\
  (is_natural h = true <-> h = [1; 10] \/ h = [10; 1]) /\
  is_natural [1; 10] = true /\
  is_natural [10; 1] = true /\
  is_natural [1; 10; 1] = false /\
  is_natural [5; 6] = false.
Proof.
  split.
  - rewrite is_natural_true. split.
    + intros [-> | ->]; split; reflexivity.
    + intros [_ Hs]. apply is_natural_true. unfold is_natural.
      apply list_eqb_eq. exact Hs.
  - split; [apply is_natural_true |]. repeat split; reflexivity.
Qed.

(* ===================================================================== *)
(** ** The shoe: [draw_card] *)
(* ===================================================================== *)

(** Brings the fields of a well-formedness proof into the context. *)
Ltac use_wf H :=
  pose proof (wf_deck _ H); pose proof (wf_deck3 _ H);
  pose proof (wf_player _ H); pose proof (wf_dealer _ H);
  pose proof (wf_deck_deck3 _ H); pose proof (wf_deck_player _ H);
  pose proof (wf_deck_dealer _ H); pose proof (wf_deck3_player _ H);
  pose proof (wf_deck3_dealer _ H); pose proof (wf_player_dealer _ H).

(** Unfolds the monad's operations in the goal. *)
Ltac mrun :=
  cbv [remove append copy load store alloc attr assign assert_ ret raise
       diverge bind];
  simpl.

Section Shoe.

Lemma bind_Ok {A B} (c : M A) (k : A -> M B) (w w' : World) (a : A) :
  c w = (Ok a, w') -> bind c k w = k a w'.
Proof. intros H. unfold bind. rewrite H. reflexivity. Qed.

Lemma remove_first_In (x : Z) (v : list Z) :
  In x v ->
  exists v', remove_first x v = Some v' /\ length v = S (length v') /\
             Permutation v (x :: v').
Proof.
  induction v as [|y t IH]; intros Hin; [destruct Hin |].
  simpl. destruct (x =? y) eqn:E.
  - apply Z.eqb_eq in E. subst y. exists t. repeat split. apply Permutation_refl.
  - destruct Hin as [Hy | Hin]; [apply Z.eqb_neq in E; congruence |].
    destruct (IH Hin) as [t' [Ht' [Hlen Hperm]]]. rewrite Ht'.
    exists (y :: t'). repeat split.
    + simpl. rewrite Hlen. reflexivity.
    + apply perm_trans with (y :: x :: t').
      * apply perm_skip, Hperm.
      * apply perm_swap.
Qed.

Lemma remove_first_Forall (P : Z -> Prop) (x : Z) (v v' : list Z) :
  remove_first x v = Some v' -> Forall P v -> Forall P v'.
Proof.
  revert v'. induction v as [|y t IH]; intros v' Hr Hf; [discriminate |].
  simpl in Hr. inversion Hf as [|? ? Hy Ht]; subst.
  destruct (x =? y).
  - injection Hr as <-. exact Ht.
  - destruct (remove_first x t) as [t'|]; [|discriminate].
    injection Hr as <-. constructor; [exact Hy | apply IH; [reflexivity | exact Ht]].
Qed.

Lemma shoe_at_pick_length (cards : list Z) :
  (15 < length (shoe_at_pick cards))%nat.
Proof.
  unfold shoe_at_pick. destruct (length cards <=? 15)%nat eqn:E.
  - simpl. lia.
  - apply Nat.leb_gt in E. exact E.
Qed.

Lemma choice_pick (a : list Z) (w : World) :
  a <> [] ->
  exists c,
    choice a w = (Ok c, with_np_random (fun k => np_random w (S k)) w) /\
    a !! (np_random w O mod length a)%nat = Some c.
Proof.
  intros Ha. destruct a as [|x t]; [congruence |].
  assert (Hlt : (np_random w O mod length (x :: t) < length (x :: t))%nat)
    by (apply Nat.mod_upper_bound; discriminate).
  destruct (lookup_lt_is_Some_2 _ _ Hlt) as [c Hc].
  exists c. split; [| exact Hc].
  unfold choice. rewrite (nth_lookup_Some _ _ x _ Hc). reflexivity.
Qed.

(** The two halves of [draw_card]: the refill test, then pick and remove. *)
Lemma pick_and_remove (w : World) (shoe : list Z) :
  heap w !! deck3 w = Some shoe ->
  shoe <> [] ->
  exists c shoe',
    (d3 <- attr deck3 ;; cards <- load d3 ;; card <- choice cards ;;
     remove d3 card ;; ret card) w
    = (Ok c, with_heap (<[deck3 w := shoe']> (heap w))
               (with_np_random (fun k => np_random w (S k)) w)) /\
    shoe !! (np_random w O mod length shoe)%nat = Some c /\
    remove_first c shoe = Some shoe'.
Proof.
  intros Hshoe Hne.
  destruct (choice_pick shoe w Hne) as [c [Hch Hc]].
  assert (Hin : In c shoe) by (apply list_elem_of_In, list_elem_of_lookup; eauto).
  destruct (remove_first_In c shoe Hin) as [shoe' [Hrm _]].
  exists c, shoe'. split; [| split; assumption].
  unfold bind at 1, attr. unfold bind at 1, load. rewrite Hshoe.
  rewrite (bind_Ok _ _ _ _ _ Hch).
  mrun. rewrite Hshoe, Hrm. reflexivity.
Qed.

Lemma draw_card_drew (w : World) (cards : list Z) :
  heap w !! deck w = Some deck_literal ->
  heap w !! deck3 w = Some cards ->
  exists c w', draw_card w = (Ok c, w') /\ drew w c w'.
Proof.
  intros Hdeck Hshoe. unfold draw_card.
  unfold bind at 1, attr. unfold bind at 1, load. rewrite Hshoe.
  pose proof (shoe_at_pick_length cards) as Hpos.
  unfold shoe_at_pick in Hpos.
  destruct (length cards <=? 15)%nat eqn:E.
  - (* refill *)
    set (w1 := with_deck3 (length (heap w))
                 (with_heap (heap w ++ [list_mul deck_literal 3]) w)).
    assert (H1 : heap w1 !! deck3 w1 = Some (list_mul deck_literal 3)).
    { unfold w1. simpl. apply list_lookup_middle. reflexivity. }
    destruct (pick_and_remove w1 _ H1) as [c [shoe' [Hrun [Hc Hrm]]]];
      [discriminate |].
    exists c. eexists. split.
    + unfold bind at 1. unfold bind at 1, attr. unfold bind at 1, load.
      rewrite Hdeck. unfold bind at 1, alloc, assign. fold w1.
      exact Hrun.
    + constructor; simpl; try reflexivity.
      * exists cards, shoe'. unfold shoe_at_pick. rewrite E.
        repeat split; try assumption.
        -- rewrite list_lookup_insert_eq; [reflexivity |].
           rewrite length_app. simpl. lia.
        -- rewrite length_insert, length_app. simpl. lia.
      * intros l Hl. rewrite list_lookup_insert_ne by congruence.
        destruct (decide (l < length (heap w))%nat) as [Hlt | Hge].
        -- apply lookup_app_l. exact Hlt.
        -- rewrite !lookup_ge_None_2; [reflexivity | lia |].
           rewrite length_app. simpl. lia.
  - (* the shoe is used as it is *)
    assert (Hne : cards <> []) by (intros ->; simpl in Hpos; lia).
    destruct (pick_and_remove w cards Hshoe Hne) as [c [shoe' [Hrun [Hc Hrm]]]].
    exists c. eexists. split.
    + unfold bind at 1, ret. exact Hrun.
    + pose proof (lookup_lt_Some _ _ _ Hshoe) as Hlt.
      constructor; simpl; try reflexivity.
      * exists cards, shoe'. unfold shoe_at_pick. rewrite E.
        repeat split; try assumption.
        -- rewrite list_lookup_insert_eq; [reflexivity | exact Hlt].
        -- apply length_insert.
      * intros l Hl. apply list_lookup_insert_ne. congruence.
Qed.

End Shoe.

Section ShoeInvariant.

Lemma remove_first_Some (x : Z) (v v' : list Z) :
  remove_first x v = Some v' ->
  length v = S (length v') /\ Permutation v (x :: v').
Proof.
  revert v'. induction v as [|y t IH]; intros v' Hr; [discriminate |].
  simpl in Hr. destruct (x =? y) eqn:E.
  - apply Z.eqb_eq in E. injection Hr as <-. subst y.
    split; [reflexivity | apply Permutation_refl].
  - destruct (remove_first x t) as [t'|]; [|discriminate].
    injection Hr as <-. destruct (IH t' eq_refl) as [Hlen Hperm].
    split; [simpl; rewrite Hlen; reflexivity |].
    apply perm_trans with (y :: x :: t'); [apply perm_skip, Hperm | apply perm_swap].
Qed.

Lemma drew_deck_intact (w w' : World) (c : Z) :
  heap w !! deck w = Some deck_literal ->
  drew w c w' ->
  heap w' !! deck w' = Some deck_literal.
Proof.
  intros Hdeck D. rewrite (drew_deck _ _ _ D), (drew_frame _ _ _ D); [exact Hdeck |].
  destruct (drew_card _ _ _ D) as [cards [shoe' [Hshoe [_ [_ [_ Hcase]]]]]].
  destruct (length cards <=? 15)%nat eqn:E.
  - destruct Hcase as [-> _]. apply lookup_lt_Some in Hdeck. lia.
  - destruct Hcase as [-> _]. intros Heq. rewrite Heq in Hdeck.
    rewrite Hshoe in Hdeck. injection Hdeck as ->. discriminate E.
Qed.

Lemma drew_shoe_left (w w' : World) (c : Z) :
  drew w c w' ->
  exists shoe', heap w' !! deck3 w' = Some shoe' /\ (15 <= length shoe')%nat.
Proof.
  intros D.
  destruct (drew_card _ _ _ D) as [cards [shoe' [_ [_ [Hrm [Hs' _]]]]]].
  exists shoe'. split; [exact Hs' |].
  apply remove_first_Some in Hrm. destruct Hrm as [Hlen _].
  pose proof (shoe_at_pick_length cards). lia.
Qed.

Lemma draw_cards_run (n : nat) (w : World) (cards : list Z) :
  heap w !! deck w = Some deck_literal ->
  heap w !! deck3 w = Some cards ->
  exists cs w' shoe',
    draw_cards n w = (Ok cs, w') /\
    length cs = n /\
    heap w' !! deck w' = Some deck_literal /\
    heap w' !! deck3 w' = Some shoe' /\
    ((0 < n)%nat -> (15 <= length shoe')%nat) /\
    ((0 < length cards)%nat -> (0 < length shoe')%nat).
Proof.
  revert w cards. induction n as [|n IH]; intros w cards Hdeck Hshoe.
  - exists [], w, cards. repeat split; try assumption; lia.
  - destruct (draw_card_drew w cards Hdeck Hshoe) as [c [w1 [Hrun D]]].
    pose proof (drew_deck_intact _ _ _ Hdeck D) as Hdeck1.
    destruct (drew_shoe_left _ _ _ D) as [shoe1 [Hshoe1 Hlen1]].
    destruct (IH w1 shoe1 Hdeck1 Hshoe1)
      as [cs [w' [shoe' [Hcs [Hlen [Hdeck' [Hshoe' [Hpos Hnz]]]]]]]].
    exists (c :: cs), w', shoe'.
    split.
    { simpl. rewrite (bind_Ok _ _ _ _ _ Hrun), (bind_Ok _ _ _ _ _ Hcs).
      reflexivity. }
    split; [simpl; congruence |].
    split; [exact Hdeck' |].
    split; [exact Hshoe' |].
    assert (Hgoal : (15 <= length shoe')%nat).
    { destruct n as [|n]; [| apply Hpos; lia].
      simpl in Hcs. injection Hcs as _ <-.
      rewrite Hshoe1 in Hshoe'. injection Hshoe' as <-. exact Hlen1. }
    split; intros _; lia.
Qed.

Lemma three_decks_count (r : Z) :
  count_occ Z.eq_dec (deck_literal ++ deck_literal ++ deck_literal) r
  = if (1 <=? r) && (r <=? 9) then 3%nat
    else if r =? 10 then 12%nat else 0%nat.
Proof.
  destruct (decide (1 <= r <= 10)) as [Hin | Hout].
  - assert (Hr : r = 1 \/ r = 2 \/ r = 3 \/ r = 4 \/ r = 5 \/ r = 6 \/ r = 7 \/
                 r = 8 \/ r = 9 \/ r = 10) by lia.
    repeat (destruct Hr as [-> | Hr]; [vm_compute; reflexivity |]).
    subst r. vm_compute. reflexivity.
  - replace ((1 <=? r) && (r <=? 9)) with false by lia.
    replace (r =? 10) with false by lia.
    apply count_occ_not_In. intros Hr.
    assert (Hall : Forall (fun x => 1 <= x <= 10)
                     (deck_literal ++ deck_literal ++ deck_literal))
      by (repeat constructor; lia).
    rewrite Forall_forall in Hall. apply list_elem_of_In, Hall in Hr. lia.
Qed.

End ShoeInvariant.

(** C4. On an instance whose [deck] attribute holds its literal, a draw
    never fails.  A shoe of 15 cards or fewer is first replaced by three
    decks (each rank 1 to 9 three times, the rank 10 twelve times); the card
    returned is the one at the position the random source picks among the
    positions of that composition, every position can be picked, and one
    instance of the card is removed.  At least 15 cards are left after a
    draw, so after any number of draws the shoe is not empty. *)
Theorem draw_card_never_fails (w : World) (cards : list Z) :
  heap w !! deck w = Some deck_literal ->
  heap w !! deck3 w = Some cards ->
  let shoe := shoe_at_pick cards in
  (shoe = if (length cards <=? 15)%nat
          then deck_literal ++ deck_literal ++ deck_literal else cards) /\
  (forall r, count_occ Z.eq_dec (deck_literal ++ deck_literal ++ deck_literal) r
             = if (1 <=? r) && (r <=? 9) then 3%nat
               else if r =? 10 then 12%nat else 0%nat) /\
  (exists c w' shoe',
     draw_card w = (Ok c, w') /\
     shoe !! (np_random w O mod length shoe)%nat = Some c /\
     remove_first c shoe = Some shoe' /\
     Permutation shoe (c :: shoe') /\
     heap w' !! deck3 w' = Some shoe' /\
     (15 <= length shoe')%nat) /\
  (forall i x, shoe !! i = Some x ->
     exists w', draw_card (with_np_random (fun _ => i) w) = (Ok x, w')) /\
  (forall n, exists cs w' shoe',
     draw_cards n w = (Ok cs, w') /\
     length cs = n /\
     heap w' !! deck3 w' = Some shoe' /\
     ((0 < n)%nat -> (15 <= length shoe')%nat) /\
     ((0 < length cards)%nat -> (0 < length shoe')%nat)).
Proof.
  intros Hdeck Hshoe shoe.
  split.
  { unfold shoe, shoe_at_pick. destruct (length cards <=? 15)%nat; reflexivity. }
  split.
  { apply three_decks_count. }
  split.
  { destruct (draw_card_drew w cards Hdeck Hshoe) as [c [w' [Hrun D]]].
    destruct (drew_card _ _ _ D) as [cards0 [shoe' [Hs0 [Hc [Hrm [Hs' _]]]]]].
    rewrite Hshoe in Hs0. injection Hs0 as <-.
    exists c, w', shoe'. repeat split; try assumption.
    - apply remove_first_Some in Hrm. tauto.
    - apply remove_first_Some in Hrm. destruct Hrm as [Hlen _].
      pose proof (shoe_at_pick_length cards). lia. }
  split.
  { intros i x Hx.
    destruct (draw_card_drew (with_np_random (fun _ => i) w) cards Hdeck Hshoe)
      as [c [w' [Hrun D]]].
    destruct (drew_card _ _ _ D) as [cards0 [shoe' [Hs0 [Hc _]]]].
    simpl in Hs0, Hc. rewrite Hshoe in Hs0. injection Hs0 as <-.
    fold shoe in Hc. rewrite Nat.mod_small in Hc by (eapply lookup_lt_Some, Hx).
    exists w'. congruence. }
  intros n.
  destruct (draw_cards_run n w cards Hdeck Hshoe)
    as [cs [w' [shoe' [Hcs [Hlen [_ [Hshoe' [Hpos Hnz]]]]]]]].
  exists cs, w', shoe'. repeat split; assumption.
Qed.

Lemma draw_card_never_fails_witness :
  exists c w' shoe',
    draw_card table = (Ok c, w') /\
    heap w' !! deck3 w' = Some shoe' /\
    (15 <= length shoe')%nat.
Proof.
  destruct (draw_card_never_fails table
              [2; 4; 6; 7; 8; 9; 10; 10; 10; 1; 2; 3; 4; 5; 6; 7; 8; 9; 10; 10;
               10; 10; 1; 2; 3; 4; 5; 6; 7; 8; 9; 10; 10; 10; 10]
              ltac:(reflexivity) ltac:(reflexivity))
    as [_ [_ [[c [w' [shoe' [Hrun [_ [_ [_ [Hshoe' Hlen]]]]]]]] _]]].
  exists c, w', shoe'. repeat split; assumption.
Defined.

(* ===================================================================== *)
(** ** Drawing a card into a hand *)
(* ===================================================================== *)

Section Hands.

Lemma append_run (w : World) (l : loc) (v : list Z) (c : Z) :
  heap w !! l = Some v ->
  append l c w = (Ok tt, with_heap (<[l := v ++ [c]]> (heap w)) w).
Proof. intros H. mrun. rewrite H. reflexivity. Qed.

Lemma wf_store (w : World) (l : loc) (v : list Z) :
  wf w -> l <> deck w -> wf (with_heap (<[l := v]> (heap w)) w).
Proof.
  intros [] Hl.
  constructor; unfold allocated in *; simpl; rewrite ?length_insert; try assumption.
  rewrite list_lookup_insert_ne by exact Hl. assumption.
Qed.

Lemma drew_shoe_ref (w w' : World) (c : Z) :
  drew w c w' ->
  (length (heap w) <= length (heap w'))%nat /\
  (deck3 w' = deck3 w \/ deck3 w' = length (heap w)).
Proof.
  intros D. destruct (drew_card _ _ _ D) as [cards [shoe' [_ [_ [_ [_ Hcase]]]]]].
  destruct (length cards <=? 15)%nat; destruct Hcase as [-> ->]; split; auto; lia.
Qed.

Lemma drew_wf (w w' : World) (c : Z) : wf w -> drew w c w' -> wf w'.
Proof.
  intros Hwf D. pose proof (drew_deck_intact _ _ _ (wf_deck _ Hwf) D) as Hdeck.
  destruct (drew_shoe_ref _ _ _ D) as [Hlen Href].
  destruct (drew_shoe_left _ _ _ D) as [shoe' [Hs' _]].
  apply lookup_lt_Some in Hs'.
  pose proof (lookup_lt_Some _ _ _ (wf_deck _ Hwf)) as Hdk.
  destruct Hwf. unfold allocated in *.
  constructor; unfold allocated;
    rewrite ?(drew_deck _ _ _ D), ?(drew_player _ _ _ D), ?(drew_dealer _ _ _ D);
    try assumption; try lia.
  rewrite <- (drew_deck _ _ _ D). exact Hdeck.
Qed.

(** A draw leaves alone every list object that existed and was not the
    shoe. *)
Lemma drew_other (w w' : World) (c : Z) (l : loc) :
  drew w c w' -> allocated w l -> l <> deck3 w ->
  heap w' !! l = heap w !! l.
Proof.
  intros D Hal Hne. apply (drew_frame _ _ _ D).
  destruct (drew_card _ _ _ D) as [cards [shoe' [_ [_ [_ [_ Hcase]]]]]].
  unfold allocated in Hal.
  destruct (length cards <=? 15)%nat; destruct Hcase as [-> _]; [lia | exact Hne].
Qed.

(** [hand.append(self.draw_card())] for the player's or the dealer's hand. *)
Lemma draw_into_hand (w : World) (l : loc) (v : list Z) :
  wf w ->
  l = player w \/ l = dealer w ->
  heap w !! l = Some v ->
  exists c w1 w2,
    draw_card w = (Ok c, w1) /\ drew w c w1 /\
    append l c w1 = (Ok tt, w2) /\
    w2 = with_heap (<[l := v ++ [c]]> (heap w1)) w1 /\
    wf w2 /\
    heap w2 !! l = Some (v ++ [c]) /\
    (forall l', l' <> l -> allocated w l' -> l' <> deck3 w ->
                heap w2 !! l' = heap w !! l') /\
    heap w2 !! deck3 w2 = heap w1 !! deck3 w1.
Proof.
  intros Hwf Hl Hv.
  pose proof (lookup_lt_Some _ _ _ (wf_deck _ Hwf)) as Hdk.
  destruct (lookup_lt_is_Some_2 _ _ (wf_deck3 _ Hwf)) as [cards Hcards].
  destruct (draw_card_drew w cards (wf_deck _ Hwf) Hcards) as [c [w1 [Hrun D]]].
  pose proof (drew_wf _ _ _ Hwf D) as Hwf1.
  assert (Hal : allocated w l) by (eapply lookup_lt_Some, Hv).
  assert (Hne3 : l <> deck3 w) by (destruct Hwf, Hl; subst l; congruence).
  assert (Hned : l <> deck w1).
  { rewrite (drew_deck _ _ _ D). destruct Hwf, Hl; subst l; congruence. }
  assert (Hne3' : l <> deck3 w1).
  { destruct Hwf1. rewrite (drew_player _ _ _ D), (drew_dealer _ _ _ D) in *.
    destruct Hl; subst l; congruence. }
  assert (Hv1 : heap w1 !! l = Some v)
    by (rewrite (drew_other _ _ _ _ D Hal Hne3); exact Hv).
  exists c, w1, (with_heap (<[l := v ++ [c]]> (heap w1)) w1).
  split; [exact Hrun |]. split; [exact D |].
  split; [apply append_run, Hv1 |]. split; [reflexivity |].
  split; [apply wf_store; assumption |].
  split; [simpl; apply list_lookup_insert_eq; eapply lookup_lt_Some, Hv1 |].
  split.
  - intros l' Hl' Hal' Hne'. simpl.
    rewrite list_lookup_insert_ne by congruence.
    apply (drew_other _ _ _ _ D Hal' Hne').
  - simpl. apply list_lookup_insert_ne. exact Hne3'.
Qed.

End Hands.

(* ===================================================================== *)
(** ** The dealer's loop *)
(* ===================================================================== *)

Section Dealer.

Lemma while_mono (cond : M bool) (body : M unit) (n m : nat) (w w' : World) :
  while n cond body w = (Ok tt, w') ->
  (n <= m)%nat ->
  while m cond body w = (Ok tt, w').
Proof.
  revert m w. induction n as [|n IH]; intros m w Hrun Hle.
  - destruct m as [|m]; [exact Hrun |].
    simpl in *. unfold bind in *.
    destruct (cond w) as [[[|] | e |] w1]; try discriminate Hrun; exact Hrun.
  - destruct m as [|m]; [lia |].
    simpl in *. unfold bind in *.
    destruct (cond w) as [[[|] | e |] w1]; try discriminate Hrun; [| exact Hrun].
    destruct (body w1) as [[[] | e |] w2]; try discriminate Hrun.
    apply IH; [exact Hrun | lia].
Qed.

Lemma play_dealer_stop (n : nat) (w : World) (dh : list Z) :
  heap w !! dealer w = Some dh ->
  17 <= sum_hand dh ->
  play_dealer n w = (Ok tt, w).
Proof.
  intros Hd Hsum. unfold play_dealer.
  destruct n; simpl; mrun; rewrite Hd;
    replace (sum_hand dh <? 17) with false by lia; reflexivity.
Qed.

Lemma play_dealer_iter (n : nat) (w w1 w2 : World) (dh : list Z) (c : Z) :
  heap w !! dealer w = Some dh ->
  sum_hand dh < 17 ->
  draw_card w = (Ok c, w1) ->
  append (dealer w) c w1 = (Ok tt, w2) ->
  play_dealer (S n) w = play_dealer n w2.
Proof.
  intros Hd Hsum Hdraw Happ. unfold play_dealer. simpl.
  unfold bind at 1. unfold bind at 1, attr. unfold bind at 1, load.
  rewrite Hd. unfold ret. replace (sum_hand dh <? 17) with true by lia.
  unfold bind at 1. unfold bind at 1, attr.
  rewrite (bind_Ok _ _ _ _ _ Hdraw), Happ. reflexivity.
Qed.

(** One turn of the loop on a well-formed instance. *)
Lemma dealer_turn (w : World) (dh cards : list Z) :
  wf w ->
  heap w !! dealer w = Some dh ->
  heap w !! deck3 w = Some cards ->
  sum_hand dh < 17 ->
  exists c w2 shoe',
    (forall n, play_dealer (S n) w = play_dealer n w2) /\
    (forall w3, dealer_plays w2 w3 -> dealer_plays w w3) /\
    wf w2 /\
    heap w2 !! dealer w2 = Some (dh ++ [c]) /\
    heap w2 !! deck3 w2 = Some shoe' /\
    In c (shoe_at_pick cards) /\
    remove_first c (shoe_at_pick cards) = Some shoe'.
Proof.
  intros Hwf Hd Hcards Hsum.
  destruct (draw_into_hand w (dealer w) dh Hwf (or_intror eq_refl) Hd)
    as [c [w1 [w2 [Hdraw [D [Happ [Hw2 [Hwf2 [Hd2 [_ Hs2]]]]]]]]]].
  destruct (drew_card _ _ _ D) as [cards0 [shoe' [Hs0 [Hc [Hrm [Hs' _]]]]]].
  rewrite Hcards in Hs0. injection Hs0 as <-.
  assert (Hdl : dealer w2 = dealer w) by (rewrite Hw2; simpl; apply (drew_dealer _ _ _ D)).
  exists c, w2, shoe'.
  split; [intros n; eapply play_dealer_iter; eassumption |].
  split; [intros w3 Hplay; eapply dealer_draws; eassumption |].
  split; [exact Hwf2 |].
  split; [rewrite Hdl; exact Hd2 |].
  split; [rewrite Hs2; exact Hs' |].
  split; [apply list_elem_of_In, list_elem_of_lookup; eauto | exact Hrm].
Qed.

Lemma shoe_at_pick_small (cards : list Z) :
  (length cards <= 15)%nat -> shoe_at_pick cards = list_mul deck_literal 3.
Proof.
  intros H. unfold shoe_at_pick. apply Nat.leb_le in H. rewrite H. reflexivity.
Qed.

Lemma shoe_at_pick_big (cards : list Z) :
  (15 < length cards)%nat -> shoe_at_pick cards = cards.
Proof.
  intros H. unfold shoe_at_pick. apply Nat.leb_gt in H. rewrite H. reflexivity.
Qed.

Lemma shoe_at_pick_ranked (cards : list Z) :
  Forall (fun c => 1 <= c) cards -> Forall (fun c => 1 <= c) (shoe_at_pick cards).
Proof.
  intros H. unfold shoe_at_pick. destruct (length cards <=? 15)%nat; [| exact H].
  simpl. repeat constructor; lia.
Qed.

(** With cards worth at least 1 in the shoe, every turn raises the plain
    sum of the dealer's hand, and [17 - sum] turns are enough. *)
Lemma play_dealer_ranked (n : nat) (w : World) (dh cards : list Z) :
  wf w ->
  heap w !! dealer w = Some dh ->
  heap w !! deck3 w = Some cards ->
  Forall (fun c => 1 <= c) cards ->
  17 - sum dh <= Z.of_nat n ->
  exists w', play_dealer n w = (Ok tt, w') /\ dealer_plays w w'.
Proof.
  revert w dh cards. induction n as [|n IH]; intros w dh cards Hwf Hd Hcards Hr Hn.
  - exists w. pose proof (sum_le_sum_hand dh).
    split; [eapply play_dealer_stop | eapply dealer_stops]; try eassumption; lia.
  - destruct (Z_lt_le_dec (sum_hand dh) 17) as [Hlt | Hge].
    + destruct (dealer_turn w dh cards Hwf Hd Hcards Hlt)
        as [c [w2 [shoe' [Hiter [Hplays [Hwf2 [Hd2 [Hs2 [Hin Hrm]]]]]]]]].
      pose proof (shoe_at_pick_ranked cards Hr) as Hr'.
      assert (Hc : 1 <= c) by (rewrite Forall_forall in Hr'; apply Hr', list_elem_of_In, Hin).
      destruct (IH w2 (dh ++ [c]) shoe' Hwf2 Hd2 Hs2) as [w' [Hrun Hp]].
      * eapply remove_first_Forall; eassumption.
      * rewrite sum_snoc. lia.
      * exists w'. split; [rewrite Hiter; exact Hrun | apply Hplays, Hp].
    + exists w. split; [eapply play_dealer_stop | eapply dealer_stops]; eassumption.
Qed.

(** Whatever the shoe holds, the loop comes to an end: once the shoe is
    down to 15 cards it is replaced by three decks. *)
Lemma play_dealer_total (w : World) :
  wf w ->
  exists n w', play_dealer n w = (Ok tt, w') /\ dealer_plays w w'.
Proof.
  intros Hwf.
  destruct (lookup_lt_is_Some_2 _ _ (wf_deck3 _ Hwf)) as [cards Hcards].
  destruct (lookup_lt_is_Some_2 _ _ (wf_dealer _ Hwf)) as [dh Hd].
  remember (length cards) as k eqn:Hk.
  assert (Hle : (length cards <= k)%nat) by lia. clear Hk.
  revert w dh cards Hwf Hcards Hd Hle.
  induction k as [|k IH]; intros w dh cards Hwf Hcards Hd Hle;
    destruct (Z_lt_le_dec (sum_hand dh) 17) as [Hlt | Hge];
    try (exists O, w; split;
         [eapply play_dealer_stop | eapply dealer_stops]; eassumption);
    destruct (dealer_turn w dh cards Hwf Hd Hcards Hlt)
      as [c [w2 [shoe' [Hiter [Hplays [Hwf2 [Hd2 [Hs2 [Hin Hrm]]]]]]]]].
  - (* an empty shoe: the card comes from three new decks *)
    assert (Hr : Forall (fun c => 1 <= c) shoe').
    { eapply remove_first_Forall; [exact Hrm |].
      rewrite shoe_at_pick_small by lia. simpl. repeat constructor; lia. }
    destruct (play_dealer_ranked (Z.to_nat (17 - sum (dh ++ [c]))) w2 _ _
                Hwf2 Hd2 Hs2 Hr ltac:(lia)) as [w' [Hrun Hp]].
    eexists (S _), w'. split; [rewrite Hiter; exact Hrun | apply Hplays, Hp].
  - destruct (le_lt_dec (length cards) 15) as [Hsmall | Hbig].
    + assert (Hr : Forall (fun c => 1 <= c) shoe').
      { eapply remove_first_Forall; [exact Hrm |].
        rewrite shoe_at_pick_small by lia. simpl. repeat constructor; lia. }
      destruct (play_dealer_ranked (Z.to_nat (17 - sum (dh ++ [c]))) w2 _ _
                  Hwf2 Hd2 Hs2 Hr ltac:(lia)) as [w' [Hrun Hp]].
      eexists (S _), w'. split; [rewrite Hiter; exact Hrun | apply Hplays, Hp].
    + assert (Hlen : (length shoe' <= k)%nat).
      { apply remove_first_Some in Hrm. destruct Hrm as [Hl _].
        rewrite shoe_at_pick_big in Hl by lia. lia. }
      destruct (IH w2 _ _ Hwf2 Hs2 Hd2 Hlen) as [n [w' [Hrun Hp]]].
      exists (S n), w'. split; [rewrite Hiter; exact Hrun | apply Hplays, Hp].
Qed.

End Dealer.

Section DealerOutcome.

(** What the dealer's play leaves behind on a well-formed instance. *)
Lemma dealer_plays_post (w w' : World) :
  dealer_plays w w' ->
  wf w ->
  wf w' /\
  player w' = player w /\ dealer w' = dealer w /\
  natural w' = natural w /\ deck w' = deck w /\
  heap w' !! player w' = heap w !! player w /\
  exists dh cs,
    heap w !! dealer w = Some dh /\
    heap w' !! dealer w' = Some (dh ++ cs) /\
    17 <= sum_hand (dh ++ cs).
Proof.
  induction 1 as [w dh Hd Hsum | w dh c w1 w2 w3 Hd Hsum Hdraw Happ Hplay IH];
    intros Hwf.
  - split; [exact Hwf |]. do 5 (split; [reflexivity |]).
    exists dh, []. rewrite app_nil_r. tauto.
  - destruct (draw_into_hand w (dealer w) dh Hwf (or_intror eq_refl) Hd)
      as [c0 [w10 [w20 [Hdraw0 [D [Happ0 [Hw2 [Hwf2 [Hd2 [Hframe _]]]]]]]]]].
    rewrite Hdraw in Hdraw0. injection Hdraw0 as <- <-.
    rewrite Happ in Happ0. injection Happ0 as <-.
    destruct (IH Hwf2) as [Hwf3 [Hp [Hdl [Hn [Hdk [Hph [dh2 [cs [Hdh2 [Hdh3 Hfin]]]]]]]]]].
    assert (Hp2 : player w2 = player w) by (rewrite Hw2; apply (drew_player _ _ _ D)).
    assert (Hdl2 : dealer w2 = dealer w) by (rewrite Hw2; apply (drew_dealer _ _ _ D)).
    split; [exact Hwf3 |].
    split; [congruence |]. split; [congruence |].
    split; [rewrite Hn, Hw2; apply (drew_natural _ _ _ D) |].
    split; [rewrite Hdk, Hw2; apply (drew_deck _ _ _ D) |].
    split.
    + rewrite Hph, Hp2. use_wf Hwf. apply Hframe; auto.
    + rewrite Hdl2, Hd2 in Hdh2. injection Hdh2 as <-.
      exists dh, (c :: cs). rewrite <- app_assoc in Hdh3, Hfin. simpl in Hdh3, Hfin.
      tauto.
Qed.

(** The loop's answer does not depend on how much fuel is left over. *)
Lemma play_dealer_mono (n m : nat) (w w' : World) :
  play_dealer n w = (Ok tt, w') -> (n <= m)%nat -> play_dealer m w = (Ok tt, w').
Proof. unfold play_dealer. apply while_mono. Qed.

Lemma get_obs_run (w : World) (ph rest : list Z) (up : Z) :
  heap w !! player w = Some ph ->
  heap w !! dealer w = Some (up :: rest) ->
  _get_obs w = (Ok (sum_hand ph, up, usable_ace ph), w).
Proof. intros Hp Hd. unfold _get_obs. mrun. rewrite Hp, Hd. reflexivity. Qed.

End DealerOutcome.

(** C9. On a well-formed instance the dealer's loop ends whatever the
    dealer's hand and the shoe hold: some number of turns is enough, the
    answer is the same with any larger allowance, and the dealer's total is
    then at least 17.  When every card of the shoe is worth at least 1, a
    draw raises the plain sum of the hand and [17 - sum] turns are enough. *)
Theorem dealer_policy_terminates (w : World) (dh cards : list Z) :
  wf w ->
  heap w !! dealer w = Some dh ->
  heap w !! deck3 w = Some cards ->
  (exists n w' dh',
     (forall fuel, (n <= fuel)%nat -> play_dealer fuel w = (Ok tt, w')) /\
     dealer_plays w w' /\
     heap w' !! dealer w' = Some dh' /\
     17 <= sum_hand dh') /\
  (Forall (fun c => 1 <= c) cards ->
     (forall c w1, draw_card w = (Ok c, w1) -> 1 <= c /\ sum dh < sum (dh ++ [c])) /\
     exists w', forall fuel, (Z.to_nat (17 - sum dh) <= fuel)%nat ->
                             play_dealer fuel w = (Ok tt, w')).
Proof.
  intros Hwf Hd Hcards. split.
  - destruct (play_dealer_total w Hwf) as [n [w' [Hrun Hplay]]].
    destruct (dealer_plays_post w w' Hplay Hwf)
      as [_ [_ [_ [_ [_ [_ [dh0 [cs [_ [Hd' Hfin]]]]]]]]]].
    exists n, w', (dh0 ++ cs).
    split; [intros fuel Hle; eapply play_dealer_mono; eassumption |].
    tauto.
  - intros Hr. split.
    + intros c w1 Hdraw.
      destruct (draw_card_drew w cards (wf_deck _ Hwf) Hcards) as [c0 [w0 [Hrun D]]].
      rewrite Hdraw in Hrun. injection Hrun as <- <-.
      destruct (drew_card _ _ _ D) as [cards0 [shoe' [Hs0 [Hc _]]]].
      rewrite Hcards in Hs0. injection Hs0 as <-.
      pose proof (shoe_at_pick_ranked cards Hr) as Hr'.
      rewrite Forall_forall in Hr'.
      assert (1 <= c) by (apply Hr', list_elem_of_lookup; eauto).
      rewrite sum_snoc. lia.
    + destruct (play_dealer_ranked (Z.to_nat (17 - sum dh)) w dh cards
                  Hwf Hd Hcards Hr ltac:(lia)) as [w' [Hrun _]].
      exists w'. intros fuel Hle. eapply play_dealer_mono; eassumption.
Qed.

Lemma table_wf : wf table.
Proof.
  constructor; unfold allocated; vm_compute; try reflexivity; try lia; discriminate.
Qed.

Lemma dealer_policy_terminates_witness :
  exists n w' dh',
    (forall fuel, (n <= fuel)%nat -> play_dealer fuel table = (Ok tt, w')) /\
    dealer_plays table w' /\
    heap w' !! dealer w' = Some dh' /\
    17 <= sum_hand dh'.
Proof.
  exact (proj1 (dealer_policy_terminates table [5; 3]
                  [2; 4; 6; 7; 8; 9; 10; 10; 10; 1; 2; 3; 4; 5; 6; 7; 8; 9; 10;
                   10; 10; 10; 1; 2; 3; 4; 5; 6; 7; 8; 9; 10; 10; 10; 10]
                  table_wf eq_refl eq_refl)).
Defined.

(* ===================================================================== *)
(** ** [step] *)
(* ===================================================================== *)

(** C8. An action outside 0, 1, 2 makes [step] fail on its assertion, and the
    instance and the store are what they were: no hand, no shoe and no part
    of the random source has changed. *)
Theorem step_invalid_action (fuel : nat) (action : Z) (w : World) :
  action <> 0 -> action <> 1 -> action <> 2 ->
  step fuel action w = (Raise AssertionError, w).
Proof.
  intros H0 H1 H2. unfold step, action_space_contains.
  assert (E : (0 <=? action) && (action <? 3) = false).
  { destruct (0 <=? action) eqn:Ea; [| reflexivity].
    destruct (action <? 3) eqn:Eb; [lia | reflexivity]. }
  rewrite E. reflexivity.
Qed.

Lemma step_invalid_action_witness :
  step 5 3 table = (Raise AssertionError, table).
Proof.
  apply step_invalid_action; lia.
Defined.

(** C3. On a well-formed instance whose dealer holds a card, [step(1)] draws
    one card and appends it to the player's hand.  It returns done with
    reward -1 when the new hand is bust, and not done with reward 0
    otherwise.  The dealer's hand is the list it was, and the random source
    has advanced by the one draw. *)
Theorem step_hit_spec (fuel : nat) (w : World) (ph rest : list Z) (up : Z) :
  wf w ->
  heap w !! player w = Some ph ->
  heap w !! dealer w = Some (up :: rest) ->
  exists c w1 w',
    draw_card w = (Ok c, w1) /\
    w' = with_heap (<[player w := ph ++ [c]]> (heap w1)) w1 /\
    step fuel 1 w
    = (Ok ((sum_hand (ph ++ [c]), up, usable_ace (ph ++ [c])),
           (if is_bust (ph ++ [c]) then (-1)%float else 0%float),
           is_bust (ph ++ [c])), w') /\
    player w' = player w /\ heap w' !! player w' = Some (ph ++ [c]) /\
    dealer w' = dealer w /\ heap w' !! dealer w' = Some (up :: rest) /\
    np_random w' = (fun k => np_random w (S k)).
Proof.
  intros Hwf Hp Hd.
  destruct (draw_into_hand w (player w) ph Hwf (or_introl eq_refl) Hp)
    as [c [w1 [w2 [Hdraw [D [Happ [Hw2 [Hwf2 [Hp2 [Hframe _]]]]]]]]]].
  assert (Hpl : player w2 = player w) by (rewrite Hw2; apply (drew_player _ _ _ D)).
  assert (Hdl : dealer w2 = dealer w) by (rewrite Hw2; apply (drew_dealer _ _ _ D)).
  assert (Hd2 : heap w2 !! dealer w2 = Some (up :: rest)).
  { rewrite Hdl, <- Hd. use_wf Hwf. apply Hframe; auto. }
  exists c, w1, w2.
  split; [exact Hdraw |]. split; [exact Hw2 |].
  split.
  - unfold step. simpl.
    unfold bind at 1. unfold ret at 1. unfold bind at 1.
    unfold bind at 1, attr at 1.
    rewrite (bind_Ok _ _ _ _ _ Hdraw), (bind_Ok _ _ _ _ _ Happ).
    unfold bind at 1, attr. unfold bind at 1, load. rewrite Hpl, Hp2.
    rewrite <- Hpl in Hp2.
    destruct (is_bust (ph ++ [c])); unfold ret at 1;
      rewrite (bind_Ok _ _ _ _ _ (get_obs_run w2 _ _ _ Hp2 Hd2)); reflexivity.
  - rewrite Hpl. repeat split; try assumption.
    rewrite Hw2. simpl. apply (drew_np_random _ _ _ D).
Qed.

Lemma step_hit_spec_witness :
  exists c w1 w',
    draw_card table = (Ok c, w1) /\
    step 0 1 table
    = (Ok ((sum_hand ([1; 10] ++ [c]), 5, usable_ace ([1; 10] ++ [c])),
           (if is_bust ([1; 10] ++ [c]) then (-1)%float else 0%float),
           is_bust ([1; 10] ++ [c])), w') /\
    heap w' !! dealer w' = Some [5; 3].
Proof.
  destruct (step_hit_spec 0 table [1; 10] [3] 5 table_wf eq_refl eq_refl)
    as [c [w1 [w' [Hdraw [_ [Hstep [_ [_ [_ [Hd _]]]]]]]]]].
  exists c, w1, w'. repeat split; assumption.
Defined.

Section Rewards.

Lemma eqb_cmp_one (a b : Z) :
  PrimFloat.eqb (cmp a b) 1 = true <-> cmp a b = 1%float.
Proof.
  destruct (cmp_cases a b) as [[_ ->] | [[_ ->] | [_ ->]]];
    split; intros H; try reflexivity; discriminate H.
Qed.

Lemma total_17_nonempty (dh : list Z) :
  17 <= sum_hand dh -> exists up rest, dh = up :: rest.
Proof.
  destruct dh as [|up rest]; [| eauto].
  unfold sum_hand, usable_ace. simpl. rewrite sum_nil. lia.
Qed.

(** The stand and double branches after the player's hand is settled. *)
Lemma play_out (w : World) (ph : list Z) :
  wf w ->
  heap w !! player w = Some ph ->
  exists n w' up rest,
    (forall fuel, (n <= fuel)%nat -> play_dealer fuel w = (Ok tt, w')) /\
    dealer_plays w w' /\
    natural w' = natural w /\
    heap w' !! player w' = Some ph /\
    heap w' !! dealer w' = Some (up :: rest) /\
    17 <= sum_hand (up :: rest).
Proof.
  intros Hwf Hp.
  destruct (play_dealer_total w Hwf) as [n [w' [Hrun Hplay]]].
  destruct (dealer_plays_post w w' Hplay Hwf)
    as [_ [_ [_ [Hn [_ [Hp' [dh0 [cs [_ [Hd' Hfin]]]]]]]]]].
  destruct (total_17_nonempty _ Hfin) as [up [rest Hdh]].
  exists n, w', up, rest.
  split; [intros fuel Hle; eapply play_dealer_mono; eassumption |].
  rewrite <- Hdh. rewrite Hp'. tauto.
Qed.

End Rewards.

(** C1. On a well-formed instance [step(0)] plays out the dealer, who draws
    while the dealer's total is below 17, and returns done.  The reward is
    [cmp(score(player), score(dealer))], except that it is 1.5 exactly when
    the [natural] flag is set, the player's hand is a natural and that
    comparison is 1; without the flag it is never 1.5. *)
Theorem step_stand_spec (w : World) (ph : list Z) :
  wf w ->
  heap w !! player w = Some ph ->
  exists n w' up rest reward,
    dealer_plays w w' /\
    heap w' !! player w' = Some ph /\
    heap w' !! dealer w' = Some (up :: rest) /\
    17 <= sum_hand (up :: rest) /\
    (forall fuel, (n <= fuel)%nat ->
       step fuel 0 w
       = (Ok ((sum_hand ph, up, usable_ace ph), reward, true), w')) /\
    (reward = 1.5%float <->
       natural w = true /\ is_natural ph = true /\
       cmp (score ph) (score (up :: rest)) = 1%float) /\
    (reward <> 1.5%float -> reward = cmp (score ph) (score (up :: rest))) /\
    (natural w = false -> reward <> 1.5%float).
Proof.
  intros Hwf Hp.
  destruct (play_out w ph Hwf Hp)
    as [n [w' [up [rest [Hrun [Hplay [Hn [Hp' [Hd' Hfin]]]]]]]]].
  set (r := cmp (score ph) (score (up :: rest))).
  exists n, w', up, rest,
    (if natural w && is_natural ph && PrimFloat.eqb r 1 then 1.5%float else r).
  split; [exact Hplay |]. split; [exact Hp' |]. split; [exact Hd' |].
  split; [exact Hfin |].
  split.
  - intros fuel Hle. unfold step. simpl.
    unfold bind at 1. unfold ret at 1. unfold bind at 1.
    rewrite (bind_Ok _ _ _ _ _ (Hrun fuel Hle)).
    unfold bind at 1, attr at 1. unfold bind at 1, load at 1. rewrite Hp'.
    unfold bind at 1, attr at 1. unfold bind at 1, load at 1. rewrite Hd'.
    unfold bind at 1, attr at 1. rewrite Hn. fold r.
    destruct (natural w && is_natural ph && PrimFloat.eqb r 1); unfold ret at 1;
      rewrite (bind_Ok _ _ _ _ _ (get_obs_run w' _ _ _ Hp' Hd')); reflexivity.
  - assert (Hr : r <> 1.5%float).
    { unfold r. destruct (cmp_cases (score ph) (score (up :: rest)))
        as [[_ ->] | [[_ ->] | [_ ->]]]; discriminate. }
    destruct (natural w) eqn:En; destruct (is_natural ph) eqn:Ei; simpl;
      try (repeat split; try tauto; try congruence;
           intros H; destruct H as [? [? ?]]; discriminate).
    destruct (PrimFloat.eqb r 1) eqn:Eb.
    + apply eqb_cmp_one in Eb. repeat split; try tauto; discriminate.
    + repeat split; try tauto; try congruence.
      intros [_ [_ H]]. apply eqb_cmp_one in H. unfold r in Eb. congruence.
Qed.

Lemma step_stand_spec_witness :
  exists n w' up rest reward,
    dealer_plays table w' /\
    heap w' !! player w' = Some [1; 10] /\
    heap w' !! dealer w' = Some (up :: rest) /\
    17 <= sum_hand (up :: rest) /\
    (forall fuel, (n <= fuel)%nat ->
       step fuel 0 table
       = (Ok ((sum_hand [1; 10], up, usable_ace [1; 10]), reward, true), w')) /\
    (reward = 1.5%float <->
       natural table = true /\ is_natural [1; 10] = true /\
       cmp (score [1; 10]) (score (up :: rest)) = 1%float) /\
    (reward <> 1.5%float -> reward = cmp (score [1; 10]) (score (up :: rest))) /\
    (natural table = false -> reward <> 1.5%float).
Proof.
  exact (step_stand_spec table [1; 10] table_wf eq_refl).
Defined.

(** C2. On a well-formed instance [step(2)] draws one card and appends it to
    the player's hand, then plays out the dealer from there whether or not
    the player's new hand is bust, and returns done with twice
    [cmp(score(player), score(dealer))]: the reward is 2, 0 or -2 and never
    1.5, whatever the [natural] flag and the player's first two cards. *)
Theorem step_double_spec (w : World) (ph : list Z) :
  wf w ->
  heap w !! player w = Some ph ->
  exists c w1 w2 n w' up rest,
    draw_card w = (Ok c, w1) /\
    w2 = with_heap (<[player w := ph ++ [c]]> (heap w1)) w1 /\
    dealer_plays w2 w' /\
    heap w' !! player w' = Some (ph ++ [c]) /\
    heap w' !! dealer w' = Some (up :: rest) /\
    17 <= sum_hand (up :: rest) /\
    let reward := PrimFloat.mul 2 (cmp (score (ph ++ [c])) (score (up :: rest))) in
    (forall fuel, (n <= fuel)%nat ->
       step fuel 2 w
       = (Ok ((sum_hand (ph ++ [c]), up, usable_ace (ph ++ [c])), reward, true),
          w')) /\
    (reward = 2%float \/ reward = 0%float \/ reward = (-2)%float) /\
    reward <> 1.5%float /\
    (is_bust (ph ++ [c]) = true ->
       reward = PrimFloat.mul 2 (cmp 0 (score (up :: rest)))).
Proof.
  intros Hwf Hp.
  destruct (draw_into_hand w (player w) ph Hwf (or_introl eq_refl) Hp)
    as [c [w1 [w2 [Hdraw [D [Happ [Hw2 [Hwf2 [Hp2 _]]]]]]]]].
  assert (Hpl : player w2 = player w) by (rewrite Hw2; apply (drew_player _ _ _ D)).
  rewrite <- Hpl in Hp2.
  destruct (play_out w2 (ph ++ [c]) Hwf2 Hp2)
    as [n [w' [up [rest [Hrun [Hplay [Hn [Hp' [Hd' Hfin]]]]]]]]].
  exists c, w1, w2, n, w', up, rest.
  split; [exact Hdraw |]. split; [exact Hw2 |]. split; [exact Hplay |].
  split; [exact Hp' |]. split; [exact Hd' |]. split; [exact Hfin |].
  split; [| split; [| split]].
  - intros fuel Hle. unfold step. simpl.
    unfold bind at 1. unfold ret at 1. unfold bind at 1.
    unfold bind at 1, attr at 1.
    rewrite (bind_Ok _ _ _ _ _ Hdraw), (bind_Ok _ _ _ _ _ Happ).
    rewrite (bind_Ok _ _ _ _ _ (Hrun fuel Hle)).
    unfold bind at 1, attr at 1. unfold bind at 1, load at 1. rewrite Hp'.
    unfold bind at 1, attr at 1. unfold bind at 1, load at 1. rewrite Hd'.
    unfold ret at 1.
    rewrite (bind_Ok _ _ _ _ _ (get_obs_run w' _ _ _ Hp' Hd')). reflexivity.
  - destruct (cmp_cases (score (ph ++ [c])) (score (up :: rest)))
      as [[_ ->] | [[_ ->] | [_ ->]]]; [left | right; left | right; right];
      reflexivity.
  - destruct (cmp_cases (score (ph ++ [c])) (score (up :: rest)))
      as [[_ ->] | [[_ ->] | [_ ->]]]; discriminate.
  - intros Hb. unfold score at 1. rewrite Hb. reflexivity.
Qed.

Lemma step_double_spec_witness :
  exists c w1 w2 n w' up rest,
    draw_card table = (Ok c, w1) /\
    w2 = with_heap (<[player table := [1; 10] ++ [c]]> (heap w1)) w1 /\
    dealer_plays w2 w' /\
    heap w' !! player w' = Some ([1; 10] ++ [c]) /\
    heap w' !! dealer w' = Some (up :: rest) /\
    17 <= sum_hand (up :: rest) /\
    let reward :=
      PrimFloat.mul 2 (cmp (score ([1; 10] ++ [c])) (score (up :: rest))) in
    (forall fuel, (n <= fuel)%nat ->
       step fuel 2 table
       = (Ok ((sum_hand ([1; 10] ++ [c]), up, usable_ace ([1; 10] ++ [c])),
              reward, true), w')) /\
    (reward = 2%float \/ reward = 0%float \/ reward = (-2)%float) /\
    reward <> 1.5%float /\
    (is_bust ([1; 10] ++ [c]) = true ->
       reward = PrimFloat.mul 2 (cmp 0 (score (up :: rest)))).
Proof.
  exact (step_double_spec table [1; 10] table_wf eq_refl).
Defined.

(* ===================================================================== *)
(** ** Snapshots: what a call can reach *)
(* ===================================================================== *)

Section Frame.

Variable snap : loc * loc * loc.

Abbreviation outside := (fun l : loc => in_snapshot snap l = false).
Abbreviation anything := (fun _ => True).

Lemma frame_weaken {A} (c : M A) (Q Q' : A -> Prop) :
  frame snap c Q -> (forall a, Q a -> Q' a) -> frame snap c Q'.
Proof.
  intros Hc HQ w Hw. destruct (Hc w Hw) as [H1 [H2 H3]].
  split; [exact H1 |]. split; [exact H2 |]. intros a Ha. apply HQ, H3, Ha.
Qed.

Lemma frame_bind {A B} (c : M A) (k : A -> M B) (Q : A -> Prop) (R : B -> Prop) :
  frame snap c Q -> (forall a, Q a -> frame snap (k a) R) ->
  frame snap (bind c k) R.
Proof.
  intros Hc Hk w Hw. destruct (Hc w Hw) as [H1 [H2 H3]]. unfold bind.
  destruct (c w) as [[a | e |] w1]; simpl in *.
  - destruct (Hk a (H3 a eq_refl) w1 H1) as [K1 [K2 K3]].
    split; [exact K1 |]. split; [| exact K3].
    intros l Hl. rewrite (K2 l Hl). apply H2, Hl.
  - split; [exact H1 |]. split; [exact H2 |]. discriminate.
  - split; [exact H1 |]. split; [exact H2 |]. discriminate.
Qed.

(** A computation that leaves the instance and the store as they are. *)
Lemma frame_pure {A} (c : M A) (Q : A -> Prop) :
  (forall w, snd (c w) = w) ->
  (forall w a, clear_of snap w -> fst (c w) = Ok a -> Q a) ->
  frame snap c Q.
Proof.
  intros Hsame HQ w Hw. rewrite Hsame.
  split; [exact Hw |]. split; [reflexivity |]. intros a. apply HQ, Hw.
Qed.

Lemma frame_ret {A} (a : A) (Q : A -> Prop) : Q a -> frame snap (ret a) Q.
Proof.
  intros HQ. apply frame_pure; [reflexivity |].
  intros w b _ Hb. injection Hb as <-. exact HQ.
Qed.

Lemma frame_raise {A} (e : exn) (Q : A -> Prop) : frame snap (raise e) Q.
Proof. apply frame_pure; [reflexivity | discriminate]. Qed.

Lemma frame_diverge {A} (Q : A -> Prop) : frame snap diverge Q.
Proof. apply frame_pure; [reflexivity | discriminate]. Qed.

Lemma frame_attr {A} (f : World -> A) : frame snap (attr f) anything.
Proof. apply frame_pure; [reflexivity | trivial]. Qed.

Lemma frame_attr_player : frame snap (attr player) outside.
Proof.
  apply frame_pure; [reflexivity |].
  intros w a [H _] Ha. injection Ha as <-. exact H.
Qed.

Lemma frame_attr_dealer : frame snap (attr dealer) outside.
Proof.
  apply frame_pure; [reflexivity |].
  intros w a [_ [H _]] Ha. injection Ha as <-. exact H.
Qed.

Lemma frame_attr_deck3 : frame snap (attr deck3) outside.
Proof.
  apply frame_pure; [reflexivity |].
  intros w a [_ [_ [H _]]] Ha. injection Ha as <-. exact H.
Qed.

Lemma frame_load (l : loc) : frame snap (load l) anything.
Proof.
  apply frame_pure; [| trivial].
  intros w. unfold load. destruct (heap w !! l); reflexivity.
Qed.

Lemma frame_choice (a : list Z) : frame snap (choice a) anything.
Proof.
  intros w Hw. unfold choice. destruct a as [|x t]; simpl.
  - split; [exact Hw |]. split; [reflexivity | trivial].
  - split; [exact Hw |]. split; [reflexivity | trivial].
Qed.

Lemma frame_store (l : loc) (v : list Z) :
  in_snapshot snap l = false -> frame snap (store l v) anything.
Proof.
  intros Hl w [Hp [Hd [Hs Hal]]]. unfold store. simpl.
  split.
  - repeat split; try assumption.
    intros l' Hl'. unfold allocated. simpl. rewrite length_insert. apply Hal, Hl'.
  - split; [| trivial]. intros l' Hl'.
    apply list_lookup_insert_ne. congruence.
Qed.

Lemma frame_alloc (v : list Z) : frame snap (alloc v) outside.
Proof.
  intros w [Hp [Hd [Hs Hal]]]. unfold alloc. simpl.
  split; [| split].
  - repeat split; try assumption.
    intros l Hl. unfold allocated. simpl. rewrite length_app.
    pose proof (Hal l Hl) as H. unfold allocated in H. lia.
  - intros l Hl. apply lookup_app_l, Hal, Hl.
  - intros a Ha. injection Ha as <-.
    destruct (in_snapshot snap (length (heap w))) eqn:E; [| reflexivity].
    pose proof (Hal _ E) as H. unfold allocated in H. lia.
Qed.

Lemma frame_assign_player (l : loc) :
  in_snapshot snap l = false -> frame snap (assign (with_player l)) anything.
Proof.
  intros Hl w [Hp [Hd [Hs Hal]]]. unfold assign. simpl.
  split; [repeat split; assumption |]. split; [reflexivity | trivial].
Qed.

Lemma frame_assign_dealer (l : loc) :
  in_snapshot snap l = false -> frame snap (assign (with_dealer l)) anything.
Proof.
  intros Hl w [Hp [Hd [Hs Hal]]]. unfold assign. simpl.
  split; [repeat split; assumption |]. split; [reflexivity | trivial].
Qed.

Lemma frame_assign_deck3 (l : loc) :
  in_snapshot snap l = false -> frame snap (assign (with_deck3 l)) anything.
Proof.
  intros Hl w [Hp [Hd [Hs Hal]]]. unfold assign. simpl.
  split; [repeat split; assumption |]. split; [reflexivity | trivial].
Qed.

Lemma frame_while (n : nat) (cond : M bool) (body : M unit) :
  frame snap cond anything -> frame snap body anything ->
  frame snap (while n cond body) anything.
Proof.
  intros Hc Hb. induction n as [|n IH]; simpl.
  - eapply frame_bind; [exact Hc |]. intros [|] _.
    + apply frame_diverge.
    + apply frame_ret. trivial.
  - eapply frame_bind; [exact Hc |]. intros [|] _.
    + eapply frame_bind; [exact Hb |]. intros _ _. exact IH.
    + apply frame_ret. trivial.
Qed.

(** One step of a sequence whose first command has a known rule. *)
Ltac fstep rule := eapply frame_bind; [apply rule |]; intros ? ?.

Lemma frame_append (l : loc) (x : Z) :
  in_snapshot snap l = false -> frame snap (append l x) anything.
Proof.
  intros Hl. unfold append. fstep frame_load. apply frame_store, Hl.
Qed.

Lemma frame_remove (l : loc) (x : Z) :
  in_snapshot snap l = false -> frame snap (remove l x) anything.
Proof.
  intros Hl. unfold remove. fstep frame_load.
  destruct (remove_first x a); [apply frame_store, Hl | apply frame_raise].
Qed.

Lemma frame_copy (l : loc) : frame snap (copy l) outside.
Proof. unfold copy. fstep frame_load. apply frame_alloc. Qed.

Lemma frame_draw_card : frame snap draw_card anything.
Proof.
  unfold draw_card.
  fstep frame_attr_deck3. fstep frame_load.
  eapply frame_bind with (Q := anything).
  - destruct (length a0 <=? 15)%nat.
    + fstep (frame_attr deck). fstep frame_load. fstep frame_alloc.
      apply frame_assign_deck3. assumption.
    + apply frame_ret. trivial.
  - intros _ _. fstep frame_attr_deck3. fstep frame_load. fstep frame_choice.
    eapply frame_bind; [apply frame_remove; assumption |]. intros _ _.
    apply frame_ret. trivial.
Qed.

Lemma frame_draw_hand : frame snap draw_hand outside.
Proof.
  unfold draw_hand. fstep frame_draw_card. fstep frame_draw_card.
  apply frame_alloc.
Qed.

Lemma frame_get_obs : frame snap _get_obs anything.
Proof.
  unfold _get_obs.
  fstep frame_attr_player. fstep frame_load.
  fstep frame_attr_dealer. fstep frame_load.
  destruct a2; [apply frame_raise | apply frame_ret; trivial].
Qed.

Lemma frame_play_dealer (fuel : nat) : frame snap (play_dealer fuel) anything.
Proof.
  unfold play_dealer. apply frame_while.
  - fstep frame_attr_dealer. fstep frame_load. apply frame_ret. trivial.
  - fstep frame_attr_dealer. fstep frame_draw_card. apply frame_append. assumption.
Qed.

Lemma frame_step (fuel : nat) (action : Z) :
  frame snap (step fuel action) anything.
Proof.
  unfold step.
  eapply frame_bind with (Q := anything).
  { unfold assert_. destruct (action_space_contains action);
      [apply frame_ret; trivial | apply frame_raise]. }
  intros _ _.
  eapply frame_bind with (Q := anything).
  - destruct (action =? 1); [| destruct (action =? 2)].
    + fstep frame_attr_player. fstep frame_draw_card.
      eapply frame_bind; [apply frame_append; assumption |]. intros _ _.
      fstep frame_attr_player. fstep frame_load.
      destruct (is_bust a2); apply frame_ret; trivial.
    + fstep frame_attr_player. fstep frame_draw_card.
      eapply frame_bind; [apply frame_append; assumption |]. intros _ _.
      fstep frame_play_dealer.
      fstep frame_attr_player. fstep frame_load.
      fstep frame_attr_dealer. fstep frame_load.
      apply frame_ret. trivial.
    + fstep frame_play_dealer.
      fstep frame_attr_player. fstep frame_load.
      fstep frame_attr_dealer. fstep frame_load.
      fstep (frame_attr natural).
      match goal with |- context [if ?b then _ else _] => destruct b end;
        apply frame_ret; trivial.
  - intros rd _. fstep frame_get_obs. apply frame_ret. trivial.
Qed.

Lemma frame_reset (state : option (loc * loc * loc)) :
  keeps_clear snap (Reset state) = true ->
  frame snap (reset state) anything.
Proof.
  intros Hk. unfold reset.
  eapply frame_bind with (Q := anything); [| intros _ _; apply frame_get_obs].
  destruct state as [[[p d] s] |].
  - simpl in Hk. apply negb_true_iff in Hk.
    apply orb_false_iff in Hk. destruct Hk as [Hk Hs].
    apply orb_false_iff in Hk. destruct Hk as [Hp Hd].
    eapply frame_bind; [apply frame_assign_player, Hp |]. intros _ _.
    eapply frame_bind; [apply frame_assign_dealer, Hd |]. intros _ _.
    apply frame_assign_deck3, Hs.
  - fstep frame_draw_hand.
    eapply frame_bind; [apply frame_assign_player; assumption |]. intros _ _.
    fstep frame_draw_hand. apply frame_assign_dealer. assumption.
Qed.

Lemma frame_get_state : frame snap get_state anything.
Proof.
  unfold get_state.
  fstep frame_attr_player. fstep frame_attr_dealer. fstep frame_attr_deck3.
  fstep frame_copy.
  eapply frame_bind with (Q := anything).
  { destruct (a0 =? a)%nat; [apply frame_ret; trivial |].
    eapply frame_weaken; [apply frame_copy | trivial]. }
  intros d' _.
  eapply frame_bind with (Q := anything).
  { destruct (a1 =? a)%nat; [apply frame_ret; trivial |].
    destruct (a1 =? a0)%nat; [apply frame_ret; trivial |].
    eapply frame_weaken; [apply frame_copy | trivial]. }
  intros s' _. apply frame_ret. trivial.
Qed.

(** Every call that keeps clear of the snapshot respects it. *)
Lemma exec_respects (c : call) (w : World) :
  keeps_clear snap c = true ->
  clear_of snap w ->
  clear_of snap (exec c w) /\
  (forall l, in_snapshot snap l = true -> heap (exec c w) !! l = heap w !! l).
Proof.
  intros Hk Hw. destruct c as [fuel action | state | | |]; simpl.
  - destruct (frame_step fuel action w Hw) as [H1 [H2 _]]. tauto.
  - destruct (frame_reset state Hk w Hw) as [H1 [H2 _]]. tauto.
  - destruct (frame_draw_card w Hw) as [H1 [H2 _]]. tauto.
  - destruct (frame_draw_hand w Hw) as [H1 [H2 _]]. tauto.
  - destruct (frame_get_state w Hw) as [H1 [H2 _]]. tauto.
Qed.

Lemma exec_all_respects (cs : list call) (w : World) :
  forallb (keeps_clear snap) cs = true ->
  clear_of snap w ->
  forall l, in_snapshot snap l = true ->
            heap (exec_all cs w) !! l = heap w !! l.
Proof.
  revert w. induction cs as [|c cs IH]; intros w Hk Hw l Hl; [reflexivity |].
  simpl in Hk. apply andb_true_iff in Hk. destruct Hk as [Hc Hcs].
  destruct (exec_respects c w Hc Hw) as [H1 H2].
  unfold exec_all. simpl. fold (exec_all cs (exec c w)).
  rewrite (IH _ Hcs H1 l Hl). apply H2, Hl.
Qed.

End Frame.

Section Snapshot.

Lemma snoc_new (h : list (list Z)) (v : list Z) :
  (h ++ [v]) !! length h = Some v.
Proof. apply list_lookup_middle. reflexivity. Qed.

Lemma snoc_old (h : list (list Z)) (v : list Z) (l : loc) :
  (l < length h)%nat -> (h ++ [v]) !! l = h !! l.
Proof. apply lookup_app_l. Qed.

Lemma in_snapshot_true (p d s l : loc) :
  in_snapshot (p, d, s) l = true -> l = p \/ l = d \/ l = s.
Proof.
  unfold in_snapshot. rewrite !orb_true_iff, !Nat.eqb_eq. tauto.
Qed.

Lemma get_state_copies (w : World) (ph dh sh : list Z) :
  heap w !! player w = Some ph ->
  heap w !! dealer w = Some dh ->
  heap w !! deck3 w = Some sh ->
  exists snap w0,
    get_state w = (Ok snap, w0) /\
    snapshot_value w0 snap = (Some ph, Some dh, Some sh) /\
    (forall l, in_snapshot snap l = true ->
               (length (heap w) <= l < length (heap w0))%nat) /\
    (forall l, allocated w l -> heap w0 !! l = heap w !! l) /\
    player w0 = player w /\ dealer w0 = dealer w /\ deck3 w0 = deck3 w.
Proof.
  intros Hp Hd Hs.
  pose proof (lookup_lt_Some _ _ _ Hp) as Lp.
  pose proof (lookup_lt_Some _ _ _ Hd) as Ld.
  pose proof (lookup_lt_Some _ _ _ Hs) as Ls.
  unfold get_state. mrun. rewrite Hp. simpl.
  destruct (dealer w =? player w)%nat eqn:E1;
    destruct (deck3 w =? player w)%nat eqn:E2;
    destruct (deck3 w =? dealer w)%nat eqn:E3;
    rewrite ?Nat.eqb_eq in *;
    simpl;
    repeat (rewrite snoc_old by (rewrite ?length_app; simpl; lia));
    rewrite ?Hp, ?Hd, ?Hs; simpl;
    repeat (rewrite snoc_old by (rewrite ?length_app; simpl; lia));
    rewrite ?Hp, ?Hd, ?Hs; simpl;
    (eexists; eexists; split; [reflexivity |]);
    (split; [| split; [| split; [| repeat split]]]);
    try (intros l Hl; apply in_snapshot_true in Hl;
         rewrite ?length_app in *; simpl in *; lia);
    try (intros l Hl; unfold allocated in Hl; simpl;
         repeat (rewrite snoc_old by (rewrite ?length_app; simpl; lia));
         reflexivity);
    unfold snapshot_value; simpl;
    repeat first
      [ rewrite list_lookup_middle by (rewrite ?length_app; simpl; lia)
      | rewrite snoc_old by (rewrite ?length_app; simpl; lia) ];
    try congruence.
  all: intros l Hl; apply in_snapshot_true in Hl;
    rewrite ?length_app in *; simpl in *; lia.
Qed.

End Snapshot.

(** C10, as the code has it.  [get_state] returns three new lists with the
    contents of the player's hand, the dealer's hand and the shoe, and the
    instance keeps no reference to them.  Whatever calls follow ([step],
    [reset], [draw_card], [draw_hand], [get_state], failing or not), the
    three lists keep those contents, provided no [reset] is handed one of
    them as part of its state. *)
Theorem get_state_snapshot_isolated (w : World) (ph dh sh : list Z) :
  heap w !! player w = Some ph ->
  heap w !! dealer w = Some dh ->
  heap w !! deck3 w = Some sh ->
  exists snap w0,
    get_state w = (Ok snap, w0) /\
    snapshot_value w0 snap = (Some ph, Some dh, Some sh) /\
    clear_of snap w0 /\
    forall cs, forallb (keeps_clear snap) cs = true ->
               snapshot_value (exec_all cs w0) snap = (Some ph, Some dh, Some sh).
Proof.
  intros Hp Hd Hs.
  destruct (get_state_copies w ph dh sh Hp Hd Hs)
    as [snap [w0 [Hrun [Hval [Hnew [_ [Epl [Edl Esh]]]]]]]].
  assert (Hclear : clear_of snap w0).
  { apply lookup_lt_Some in Hp, Hd, Hs.
    repeat split.
    - rewrite Epl. destruct (in_snapshot snap (player w)) eqn:E; [| reflexivity].
      apply Hnew in E. lia.
    - rewrite Edl. destruct (in_snapshot snap (dealer w)) eqn:E; [| reflexivity].
      apply Hnew in E. lia.
    - rewrite Esh. destruct (in_snapshot snap (deck3 w)) eqn:E; [| reflexivity].
      apply Hnew in E. lia.
    - intros l Hl. apply Hnew in Hl. unfold allocated. lia. }
  exists snap, w0. split; [exact Hrun |]. split; [exact Hval |].
  split; [exact Hclear |].
  intros cs Hcs. rewrite <- Hval.
  destruct snap as [[p d] s]. unfold snapshot_value.
  rewrite !(exec_all_respects (p, d, s) cs w0 Hcs Hclear);
    [reflexivity | | |]; unfold in_snapshot;
    rewrite Nat.eqb_refl, ?orb_true_r; reflexivity.
Qed.

Lemma get_state_snapshot_isolated_witness :
  exists snap w0,
    get_state table = (Ok snap, w0) /\
    snapshot_value w0 snap
    = (Some [1; 10], Some [5; 3],
       Some [2; 4; 6; 7; 8; 9; 10; 10; 10; 1; 2; 3; 4; 5; 6; 7; 8; 9; 10; 10;
             10; 10; 1; 2; 3; 4; 5; 6; 7; 8; 9; 10; 10; 10; 10]) /\
    clear_of snap w0 /\
    forall cs, forallb (keeps_clear snap) cs = true ->
               snapshot_value (exec_all cs w0) snap
               = (Some [1; 10], Some [5; 3],
                  Some [2; 4; 6; 7; 8; 9; 10; 10; 10; 1; 2; 3; 4; 5; 6; 7; 8; 9;
                        10; 10; 10; 10; 1; 2; 3; 4; 5; 6; 7; 8; 9; 10; 10; 10;
                        10]).
Proof.
  exact (get_state_snapshot_isolated table _ _ _ eq_refl eq_refl eq_refl).
Defined.

(** C10, as stated, fails: a snapshot handed back to [reset] becomes the
    instance's own state, and the next [step(1)] appends the drawn card to
    the snapshot's first list and removes it from its third. *)
Lemma get_state_snapshot_reset_aliases :
  exists snap w0,
    get_state table = (Ok snap, w0) /\
    snapshot_value w0 snap
    = (Some [1; 10], Some [5; 3],
       Some [2; 4; 6; 7; 8; 9; 10; 10; 10; 1; 2; 3; 4; 5; 6; 7; 8; 9; 10; 10;
             10; 10; 1; 2; 3; 4; 5; 6; 7; 8; 9; 10; 10; 10; 10]) /\
    snapshot_value (exec_all [Reset (Some snap); Step 0 1] w0) snap
    = (Some [1; 10; 9], Some [5; 3],
       Some [2; 4; 6; 7; 8; 10; 10; 10; 1; 2; 3; 4; 5; 6; 7; 8; 9; 10; 10;
             10; 10; 1; 2; 3; 4; 5; 6; 7; 8; 9; 10; 10; 10; 10]) /\
    snapshot_value (exec_all [Reset (Some snap); Step 0 1] w0) snap
    <> snapshot_value w0 snap.
Proof.
  exists (4, 5, 6)%nat, (snd (get_state table)).
  split; [vm_compute; reflexivity |].
  split; [vm_compute; reflexivity |].
  split; [vm_compute; reflexivity |].
  vm_compute. discriminate.
Qed.

(* ===================================================================== *)
(** ** Further properties of hand evaluation *)
(* ===================================================================== *)

Section Evaluation.

Lemma sum_perm (h h' : list Z) : Permutation h h' -> sum h = sum h'.
Proof.
  induction 1 as [| x l l' _ IH | x y l | l l' l'' _ IH1 _ IH2].
  - reflexivity.
  - rewrite !sum_cons, IH. reflexivity.
  - rewrite !sum_cons. lia.
  - congruence.
Qed.

Lemma usable_ace_perm (h h' : list Z) :
  Permutation h h' -> usable_ace h = usable_ace h'.
Proof.
  intros Hp. unfold usable_ace. rewrite (sum_perm _ _ Hp). f_equal.
  destruct (contains 1 h) eqn:E; destruct (contains 1 h') eqn:E'; try reflexivity.
  - apply contains_In in E. apply (Permutation_in _ Hp) in E.
    apply contains_In in E. congruence.
  - apply contains_In in E'. apply (Permutation_in _ (Permutation_sym Hp)) in E'.
    apply contains_In in E'. congruence.
Qed.

Lemma sum_hand_perm (h h' : list Z) :
  Permutation h h' -> sum_hand h = sum_hand h'.
Proof.
  intros Hp. unfold sum_hand.
  rewrite (usable_ace_perm _ _ Hp), (sum_perm _ _ Hp). reflexivity.
Qed.

Lemma is_natural_perm_iff (h : list Z) :
  is_natural h = true <-> Permutation h [1; 10].
Proof.
  rewrite is_natural_true. split.
  - intros [-> | ->]; [apply Permutation_refl | apply perm_swap].
  - intros Hp. pose proof (Permutation_length Hp) as Hlen.
    destruct h as [|a [|b [|c t]]]; try discriminate Hlen.
    assert (Ha : In a [1; 10]) by (apply (Permutation_in _ Hp); left; reflexivity).
    assert (Hb : In b [1; 10])
      by (apply (Permutation_in _ Hp); right; left; reflexivity).
    pose proof (sum_perm _ _ Hp) as Hs. rewrite !sum_cons, sum_nil in Hs.
    destruct Ha as [<- | [<- | []]]; destruct Hb as [<- | [<- | []]];
      try lia; [left | right]; reflexivity.
Qed.

End Evaluation.

(** X1. [cmp] is the sign of [a - b] as a float: 1.0 exactly when [a > b],
    -1.0 exactly when [a < b], 0.0 exactly when [a = b].  It is antisymmetric
    for float equality ([==]), and bit for bit when [a] and [b] differ; for
    equal arguments [-cmp(a, a)] is the negative zero. *)
Theorem cmp_sign (a b : Z) :
  (cmp a b = 1%float <-> a > b) /\
  (cmp a b = (-1)%float <-> a < b) /\
  (cmp a b = 0%float <-> a = b) /\
  PrimFloat.eqb (cmp a b) (PrimFloat.opp (cmp b a)) = true /\
  (a <> b -> cmp a b = PrimFloat.opp (cmp b a)) /\
  PrimFloat.opp (cmp a a) = (-0)%float.
Proof.
  assert (Haa : cmp a a = 0%float).
  { destruct (cmp_cases a a) as [[H _] | [[_ H] | [H _]]]; [lia | exact H | lia]. }
  destruct (cmp_cases a b) as [[H E] | [[H E] | [H E]]];
    destruct (cmp_cases b a) as [[H' E'] | [[H' E'] | [H' E']]]; try lia;
    rewrite ?Haa, E, E'; repeat split; intros; try lia; try reflexivity;
    try discriminate.
Qed.

(** X2. How a round is decided from the two hands: two bust hands tie; a bust
    player loses to a standing dealer and a standing player beats a bust
    dealer (hands with a positive total); otherwise the totals are compared. *)
Theorem round_outcome (p d : list Z) :
  (is_bust p = true -> is_bust d = true ->
     cmp (score p) (score d) = 0%float) /\
  (is_bust p = true -> is_bust d = false -> 0 < sum_hand d ->
     cmp (score p) (score d) = (-1)%float) /\
  (is_bust p = false -> is_bust d = true -> 0 < sum_hand p ->
     cmp (score p) (score d) = 1%float) /\
  (is_bust p = false -> is_bust d = false ->
     cmp (score p) (score d) = cmp (sum_hand p) (sum_hand d)).
Proof.
  unfold score. repeat split; intros Hp Hd; rewrite Hp, Hd; try reflexivity.
  - intros Hpos. destruct (cmp_cases 0 (sum_hand d)) as [[H _] | [[H _] | [_ E]]];
      [lia | lia | exact E].
  - intros Hpos. destruct (cmp_cases (sum_hand p) 0) as [[_ E] | [[H _] | [H _]]];
      [exact E | lia | lia].
Qed.

(** X3. The evaluation of a hand does not depend on the order of its cards:
    two hands with the same cards have the same plain sum, usable-ace flag,
    total, bust flag, score and natural flag. *)
Theorem hand_evaluation_order (h h' : list Z) :
  Permutation h h' ->
  sum h = sum h' /\
  usable_ace h = usable_ace h' /\
  sum_hand h = sum_hand h' /\
  is_bust h = is_bust h' /\
  score h = score h' /\
  is_natural h = is_natural h'.
Proof.
  intros Hp.
  pose proof (sum_perm _ _ Hp) as Hs.
  pose proof (usable_ace_perm _ _ Hp) as Hu.
  pose proof (sum_hand_perm _ _ Hp) as Ht.
  repeat split; try assumption.
  - unfold is_bust. rewrite Ht. reflexivity.
  - unfold score, is_bust. rewrite Ht. reflexivity.
  - destruct (is_natural h) eqn:E; destruct (is_natural h') eqn:E'; try reflexivity.
    + apply is_natural_perm_iff in E.
      assert (Permutation h' [1; 10])
        by (eapply perm_trans; [apply Permutation_sym, Hp | exact E]).
      apply is_natural_perm_iff in H. congruence.
    + apply is_natural_perm_iff in E'.
      assert (Permutation h [1; 10]) by (eapply perm_trans; [exact Hp | exact E']).
      apply is_natural_perm_iff in H. congruence.
Qed.

Lemma hand_evaluation_order_witness :
  sum [10; 1; 5] = sum [5; 10; 1] /\
  usable_ace [10; 1; 5] = usable_ace [5; 10; 1] /\
  sum_hand [10; 1; 5] = sum_hand [5; 10; 1] /\
  is_bust [10; 1; 5] = is_bust [5; 10; 1] /\
  score [10; 1; 5] = score [5; 10; 1] /\
  is_natural [10; 1; 5] = is_natural [5; 10; 1].
Proof.
  apply (hand_evaluation_order [10; 1; 5] [5; 10; 1]).
  apply perm_trans with [10; 5; 1]; [apply perm_skip, perm_swap |].
  apply perm_trans with [5; 10; 1]; [apply perm_swap | apply Permutation_refl].
Defined.

(** X4. What one more card does to a hand that is not bust, for a card value
    of the decks: the plain sum grows by the card; the new total is at most
    31, so it fits the declared [Discrete(32)]; a hand with a usable ace and
    a hand of total 11 or less cannot go bust; and a dealer drawing below 17
    ends at 26 at most. *)
Theorem one_more_card (h : list Z) (c : Z) :
  rank c ->
  sum_hand h <= 21 ->
  sum (h ++ [c]) = sum h + c /\
  sum h < sum_hand (h ++ [c]) <= 31 /\
  (usable_ace h = true -> is_bust (h ++ [c]) = false) /\
  (sum_hand h <= 11 -> is_bust (h ++ [c]) = false) /\
  (sum_hand h < 17 -> sum_hand (h ++ [c]) <= 26).
Proof.
  intros [Hlo Hhi] Hok.
  pose proof (sum_snoc h c) as Hs.
  pose proof (sum_le_sum_hand h) as Hle.
  assert (Hcase : sum_hand (h ++ [c]) = sum h + c \/
                  (sum_hand (h ++ [c]) = sum h + c + 10 /\ sum h + c + 10 <= 21)).
  { unfold sum_hand. destruct (usable_ace (h ++ [c])) eqn:E.
    - right. apply usable_ace_true in E. lia.
    - left. lia. }
  split; [exact Hs |].
  split; [lia |].
  split; [| split].
  - intros Hu. apply usable_ace_true in Hu. unfold is_bust. lia.
  - intros H11. unfold is_bust. lia.
  - intros H17. lia.
Qed.

Lemma one_more_card_witness :
  sum ([1; 5] ++ [10]) = sum [1; 5] + 10 /\
  sum [1; 5] < sum_hand ([1; 5] ++ [10]) <= 31 /\
  (usable_ace [1; 5] = true -> is_bust ([1; 5] ++ [10]) = false) /\
  (sum_hand [1; 5] <= 11 -> is_bust ([1; 5] ++ [10]) = false) /\
  (sum_hand [1; 5] < 17 -> sum_hand ([1; 5] ++ [10]) <= 26).
Proof.
  apply (one_more_card [1; 5] 10); [unfold rank; lia | vm_compute; discriminate].
Defined.

(* ===================================================================== *)
(** ** Reading the table: [step(0)] on a finished dealer, observations *)
(* ===================================================================== *)

Section Reading.

Lemma sum_rank_bounds (l : list Z) :
  Forall rank l -> Z.of_nat (length l) <= sum l <= 10 * Z.of_nat (length l).
Proof.
  induction 1 as [|x l [Hlo Hhi] _ IH].
  - rewrite sum_nil. simpl. lia.
  - rewrite sum_cons. simpl length. lia.
Qed.

Lemma stand_reward_cases (b : bool) (a d : Z) :
  is_reward (if b && PrimFloat.eqb (cmp a d) 1 then 1.5%float else cmp a d).
Proof.
  unfold is_reward.
  destruct (cmp_cases a d) as [[_ ->] | [[_ ->] | [_ ->]]]; destruct b; simpl; tauto.
Qed.

End Reading.

(** X5. Once the dealer's total is 17 or more, [step(0)] is a pure read: it
    draws no card and leaves the instance and the store exactly as they are,
    whatever the fuel.  Standing again after a round has ended therefore
    returns the same observation and reward every time. *)
Theorem stand_on_finished_dealer (fuel : nat) (w : World) (ph rest : list Z) (up : Z) :
  heap w !! player w = Some ph ->
  heap w !! dealer w = Some (up :: rest) ->
  17 <= sum_hand (up :: rest) ->
  exists reward,
    step fuel 0 w = (Ok ((sum_hand ph, up, usable_ace ph), reward, true), w) /\
    reward = (if natural w && is_natural ph
                 && PrimFloat.eqb (cmp (score ph) (score (up :: rest))) 1
              then 1.5%float else cmp (score ph) (score (up :: rest))) /\
    is_reward reward.
Proof.
  intros Hp Hd Hfin. eexists. split; [| split; [reflexivity |]].
  - unfold step. simpl.
    unfold bind at 1. unfold ret at 1. unfold bind at 1.
    rewrite (bind_Ok _ _ _ _ _ (play_dealer_stop fuel w _ Hd Hfin)).
    unfold bind at 1, attr at 1. unfold bind at 1, load at 1. rewrite Hp.
    unfold bind at 1, attr at 1. unfold bind at 1, load at 1. rewrite Hd.
    unfold bind at 1, attr at 1.
    destruct (natural w && is_natural ph
              && PrimFloat.eqb (cmp (score ph) (score (up :: rest))) 1);
      unfold ret at 1;
      rewrite (bind_Ok _ _ _ _ _ (get_obs_run w _ _ _ Hp Hd)); reflexivity.
  - apply stand_reward_cases.
Qed.

Lemma stand_on_finished_dealer_witness :
  exists reward,
    step 0 0 (snd (step 5 0 table))
    = (Ok ((sum_hand [1; 10], 5, usable_ace [1; 10]), reward, true),
       snd (step 5 0 table)) /\
    reward = 1.5%float /\
    is_reward reward.
Proof.
  destruct (stand_on_finished_dealer 0 (snd (step 5 0 table)) [1; 10] [3; 9] 5
              eq_refl eq_refl ltac:(vm_compute; discriminate))
    as [reward [Hrun [Hr Hrew]]].
  exists reward. split; [exact Hrun |]. split; [| exact Hrew].
  rewrite Hr. vm_compute. reflexivity.
Defined.

(** X6. [_get_obs_with_deck] only reads.  It raises [IndexError] when the
    dealer holds fewer than two cards.  Otherwise its first three items are
    the observation of [_get_obs], and the fourth is the floored mean of the
    shoe's cards together with the dealer's second card; the divisor is never
    zero, and with card values in the shoe and the hand the mean lies between
    1 and 10. *)
Theorem get_obs_with_deck_spec (w : World) (ph dh cards : list Z) :
  heap w !! player w = Some ph ->
  heap w !! dealer w = Some dh ->
  heap w !! deck3 w = Some cards ->
  snd (_get_obs_with_deck w) = w /\
  ((length dh < 2)%nat -> fst (_get_obs_with_deck w) = Raise IndexError) /\
  (forall up hole rest, dh = up :: hole :: rest ->
     let mean := (sum cards + hole) / (Z.of_nat (length cards) + 1) in
     _get_obs_with_deck w = (Ok (sum_hand ph, up, usable_ace ph, mean), w) /\
     _get_obs w = (Ok (sum_hand ph, up, usable_ace ph), w) /\
     (Forall rank cards -> rank hole -> 1 <= mean <= 10)).
Proof.
  intros Hp Hd Hs.
  assert (Hrun : forall up hole rest, dh = up :: hole :: rest ->
            _get_obs_with_deck w
            = (Ok (sum_hand ph, up, usable_ace ph,
                   (sum cards + hole) / (Z.of_nat (length cards) + 1)), w)).
  { intros up hole rest ->. unfold _get_obs_with_deck. mrun.
    rewrite Hs, Hd. simpl. rewrite Hs, Hp, Hd. reflexivity. }
  split; [| split].
  - destruct dh as [|up [|hole rest]].
    + unfold _get_obs_with_deck. mrun. rewrite Hs, Hd. reflexivity.
    + unfold _get_obs_with_deck. mrun. rewrite Hs, Hd. reflexivity.
    + rewrite (Hrun up hole rest eq_refl). reflexivity.
  - intros Hlen. destruct dh as [|up [|hole rest]]; [| | simpl in Hlen; lia];
      unfold _get_obs_with_deck; mrun; rewrite Hs, Hd; reflexivity.
  - intros up hole rest Hdh mean. split; [apply (Hrun up hole rest Hdh) |].
    split; [subst dh; apply (get_obs_run w _ _ _ Hp Hd) |].
    intros Hr [Hlo Hhi]. pose proof (sum_rank_bounds cards Hr) as Hb.
    unfold mean. split.
    + apply Z.div_le_lower_bound; lia.
    + apply Z.div_le_upper_bound; lia.
Qed.

Lemma get_obs_with_deck_spec_witness :
  _get_obs_with_deck table = (Ok (21, 5, true, 6), table).
Proof.
  destruct (get_obs_with_deck_spec table [1; 10] [5; 3]
              [2; 4; 6; 7; 8; 9; 10; 10; 10; 1; 2; 3; 4; 5; 6; 7; 8; 9; 10; 10;
               10; 10; 1; 2; 3; 4; 5; 6; 7; 8; 9; 10; 10; 10; 10]
              eq_refl eq_refl eq_refl) as [_ [_ H]].
  destruct (H 5 3 [] eq_refl) as [Hrun _]. exact Hrun.
Defined.

(* ===================================================================== *)
(** ** Dealing: [draw_hand], [reset] and [__init__] *)
(* ===================================================================== *)

Section Dealing.

Lemma grows_refl (w : World) : grows w w.
Proof. unfold grows. repeat split; auto. Qed.

Lemma grows_trans (w w1 w2 : World) : grows w w1 -> grows w1 w2 -> grows w w2.
Proof.
  intros [L1 [F1 [R1 [D1 N1]]]] [L2 [F2 [R2 [D2 N2]]]].
  unfold grows, allocated in *.
  split; [lia |]. split; [| split; [| split; congruence]].
  - intros l Hal Hne. rewrite F2; [apply F1; assumption | lia |].
    destruct R1 as [-> | R1]; [exact Hne | lia].
  - destruct R2 as [-> | R2]; [exact R1 | right; lia].
Qed.

Lemma drew_grows (w w' : World) (c : Z) : drew w c w' -> grows w w'.
Proof.
  intros D. destruct (drew_shoe_ref _ _ _ D) as [Hlen Href].
  unfold grows. split; [exact Hlen |].
  split; [intros l Hal Hne; apply (drew_other _ _ _ _ D Hal Hne) |].
  split; [destruct Href as [-> | ->]; [left; reflexivity | right; lia] |].
  split; [apply (drew_deck _ _ _ D) | apply (drew_natural _ _ _ D)].
Qed.

Lemma alloc_grows (w : World) (v : list Z) :
  grows w (with_heap (heap w ++ [v]) w).
Proof.
  unfold grows, allocated. simpl. rewrite length_app. simpl.
  split; [lia |]. split; [| auto].
  intros l Hal _. apply lookup_app_l, Hal.
Qed.

(** One draw, with everything later steps need to know about it. *)
Lemma draw_step (w : World) (cards : list Z) :
  heap w !! deck w = Some deck_literal ->
  heap w !! deck3 w = Some cards ->
  exists c w1 s1,
    draw_card w = (Ok c, w1) /\
    In c (shoe_at_pick cards) /\
    remove_first c (shoe_at_pick cards) = Some s1 /\
    heap w1 !! deck3 w1 = Some s1 /\
    heap w1 !! deck w1 = Some deck_literal /\
    grows w w1 /\
    player w1 = player w /\ dealer w1 = dealer w /\
    np_random w1 = (fun k => np_random w (S k)).
Proof.
  intros Hdeck Hshoe.
  destruct (draw_card_drew w cards Hdeck Hshoe) as [c [w1 [Hrun D]]].
  destruct (drew_card _ _ _ D) as [cards0 [s1 [Hs0 [Hc [Hrm [Hs1 _]]]]]].
  rewrite Hshoe in Hs0. injection Hs0 as <-.
  exists c, w1, s1.
  split; [exact Hrun |].
  split; [apply list_elem_of_In, list_elem_of_lookup; eauto |].
  split; [exact Hrm |]. split; [exact Hs1 |].
  split; [apply (drew_deck_intact _ _ _ Hdeck D) |].
  split; [apply (drew_grows _ _ _ D) |].
  split; [apply (drew_player _ _ _ D) |].
  split; [apply (drew_dealer _ _ _ D) | apply (drew_np_random _ _ _ D)].
Qed.

Lemma remove_first_shoe_length (c : Z) (cards s1 : list Z) :
  remove_first c (shoe_at_pick cards) = Some s1 -> (15 <= length s1)%nat.
Proof.
  intros Hrm. apply remove_first_Some in Hrm. destruct Hrm as [Hlen _].
  pose proof (shoe_at_pick_length cards). lia.
Qed.

Lemma rank_shoe_at_pick (cards : list Z) :
  Forall rank cards -> Forall rank (shoe_at_pick cards).
Proof.
  intros H. unfold shoe_at_pick. destruct (length cards <=? 15)%nat; [| exact H].
  simpl. repeat constructor; lia.
Qed.

Lemma different_lists (w : World) (a b : loc) (x y : list Z) :
  heap w !! a = Some x -> heap w !! b = Some y -> length x <> length y -> a <> b.
Proof. intros Ha Hb Hlen ->. congruence. Qed.

(** [draw_hand]: two draws, then a new list with the two cards in order. *)
Lemma draw_hand_run (w : World) (cards : list Z) :
  heap w !! deck w = Some deck_literal ->
  heap w !! deck3 w = Some cards ->
  exists c1 c2 s1 s2 w2,
    draw_cards 2 w = (Ok [c1; c2], w2) /\
    draw_hand w = (Ok (length (heap w2)), with_heap (heap w2 ++ [[c1; c2]]) w2) /\
    In c1 (shoe_at_pick cards) /\
    remove_first c1 (shoe_at_pick cards) = Some s1 /\
    In c2 (shoe_at_pick s1) /\
    remove_first c2 (shoe_at_pick s1) = Some s2 /\
    heap w2 !! deck3 w2 = Some s2 /\
    heap w2 !! deck w2 = Some deck_literal /\
    grows w w2 /\
    player w2 = player w /\ dealer w2 = dealer w /\
    np_random w2 = (fun k => np_random w (S (S k))).
Proof.
  intros Hdeck Hshoe.
  destruct (draw_step w cards Hdeck Hshoe)
    as [c1 [w1 [s1 [Hr1 [Hi1 [Hm1 [Hs1 [Hd1 [G1 [P1 [L1 N1]]]]]]]]]]].
  destruct (draw_step w1 s1 Hd1 Hs1)
    as [c2 [w2 [s2 [Hr2 [Hi2 [Hm2 [Hs2 [Hd2 [G2 [P2 [L2 N2]]]]]]]]]]].
  exists c1, c2, s1, s2, w2.
  split.
  { simpl. unfold bind, ret. rewrite Hr1, Hr2. reflexivity. }
  split.
  { unfold draw_hand. rewrite (bind_Ok _ _ _ _ _ Hr1). cbn beta.
    rewrite (bind_Ok _ _ _ _ _ Hr2). reflexivity. }
  repeat (split; [assumption |]).
  split; [eapply grows_trans; eassumption |].
  split; [congruence |]. split; [congruence |].
  rewrite N2, N1. reflexivity.
Qed.

(** [reset()] without a state. *)
Lemma reset_deals (w : World) (cards : list Z) :
  heap w !! deck w = Some deck_literal ->
  heap w !! deck3 w = Some cards ->
  exists c1 c2 c3 c4 s1 s2 s3 s4 w',
    reset None w = (Ok (sum_hand [c1; c2], c3, usable_ace [c1; c2]), w') /\
    (In c1 (shoe_at_pick cards) /\ remove_first c1 (shoe_at_pick cards) = Some s1) /\
    (In c2 (shoe_at_pick s1) /\ remove_first c2 (shoe_at_pick s1) = Some s2) /\
    (In c3 (shoe_at_pick s2) /\ remove_first c3 (shoe_at_pick s2) = Some s3) /\
    (In c4 (shoe_at_pick s3) /\ remove_first c4 (shoe_at_pick s3) = Some s4) /\
    heap w' !! player w' = Some [c1; c2] /\
    heap w' !! dealer w' = Some [c3; c4] /\
    heap w' !! deck3 w' = Some s4 /\
    wf w' /\
    grows w w' /\
    ~ allocated w (player w') /\ ~ allocated w (dealer w') /\
    np_random w' = (fun k => np_random w (4 + k)%nat).
Proof.
  intros Hdeck Hshoe.
  destruct (draw_hand_run w cards Hdeck Hshoe)
    as [c1 [c2 [s1 [s2 [w2 [_ [Hh1 [Hi1 [Hm1 [Hi2 [Hm2 [Hs2 [Hd2 [G2 [_ [_ N2]]]]]]]]]]]]]]]].
  set (p := length (heap w2)).
  set (wa := with_player p (with_heap (heap w2 ++ [[c1; c2]]) w2)).
  pose proof (lookup_lt_Some _ _ _ Hd2) as Ldk2.
  pose proof (lookup_lt_Some _ _ _ Hs2) as Lsh2.
  assert (Hda : heap wa !! deck wa = Some deck_literal)
    by (unfold wa; simpl; rewrite lookup_app_l by exact Ldk2; exact Hd2).
  assert (Hsa : heap wa !! deck3 wa = Some s2)
    by (unfold wa; simpl; rewrite lookup_app_l by exact Lsh2; exact Hs2).
  assert (Ga : grows w2 wa) by apply alloc_grows.
  assert (Hpa : heap wa !! p = Some [c1; c2]) by apply snoc_new.
  destruct (draw_hand_run wa s2 Hda Hsa)
    as [c3 [c4 [s3 [s4 [w4 [_ [Hh2 [Hi3 [Hm3 [Hi4 [Hm4 [Hs4 [Hd4 [G4 [P4 [_ N4]]]]]]]]]]]]]]]].
  set (d := length (heap w4)).
  set (w' := with_dealer d (with_heap (heap w4 ++ [[c3; c4]]) w4)).
  pose proof (lookup_lt_Some _ _ _ Hd4) as Ldk4.
  pose proof (lookup_lt_Some _ _ _ Hs4) as Lsh4.
  assert (Gw : grows w4 w') by apply alloc_grows.
  assert (Lp : (p < length (heap wa))%nat) by (eapply lookup_lt_Some, Hpa).
  assert (Hp4 : heap w4 !! p = Some [c1; c2]).
  { destruct G4 as [_ [F4 _]]. rewrite F4; [exact Hpa | exact Lp |].
    unfold wa. simpl. unfold p. lia. }
  assert (L4 : (length (heap wa) <= length (heap w4))%nat) by apply G4.
  assert (Hp' : heap w' !! player w' = Some [c1; c2]).
  { unfold w'. simpl. rewrite P4. unfold wa. simpl.
    rewrite lookup_app_l by lia. exact Hp4. }
  assert (Hd' : heap w' !! dealer w' = Some [c3; c4]) by apply snoc_new.
  assert (Hs' : heap w' !! deck3 w' = Some s4)
    by (unfold w'; simpl; rewrite lookup_app_l by exact Lsh4; exact Hs4).
  assert (Hk' : heap w' !! deck w' = Some deck_literal)
    by (unfold w'; simpl; rewrite lookup_app_l by exact Ldk4; exact Hd4).
  pose proof (remove_first_shoe_length _ _ _ Hm4) as Hlen4.
  assert (G : grows w w').
  { eapply grows_trans; [exact G2 |]. eapply grows_trans; [exact Ga |].
    eapply grows_trans; [exact G4 | exact Gw]. }
  assert (L2 : (length (heap w) <= p)%nat) by apply G2.
  exists c1, c2, c3, c4, s1, s2, s3, s4, w'.
  split.
  { unfold reset. unfold bind at 1.
    unfold bind at 1. rewrite Hh1. unfold bind at 1, assign at 1. fold p. fold wa.
    unfold bind at 1. rewrite Hh2. unfold assign. fold d. fold w'.
    apply (get_obs_run w' _ _ _ Hp' Hd'). }
  do 4 (split; [tauto |]).
  split; [exact Hp' |]. split; [exact Hd' |]. split; [exact Hs' |].
  split.
  { constructor; try assumption.
    - eapply lookup_lt_Some, Hs'.
    - eapply lookup_lt_Some, Hp'.
    - eapply lookup_lt_Some, Hd'.
    - eapply different_lists; [exact Hk' | exact Hs' |]. simpl. lia.
    - eapply different_lists; [exact Hk' | exact Hp' |]. simpl. lia.
    - eapply different_lists; [exact Hk' | exact Hd' |]. simpl. lia.
    - eapply different_lists; [exact Hs' | exact Hp' |]. simpl. lia.
    - eapply different_lists; [exact Hs' | exact Hd' |]. simpl. lia.
    - unfold w'. simpl. rewrite P4. unfold wa. simpl. unfold d. lia. }
  split; [exact G |].
  split; [unfold allocated, w'; simpl; rewrite P4; unfold wa; simpl; lia |].
  split; [unfold allocated, w', d; simpl; lia |].
  unfold w'. simpl. rewrite N4. unfold wa. simpl. rewrite N2. reflexivity.
Qed.

End Dealing.

Section NewRound.

Lemma two_card_total (c1 c2 : Z) :
  rank c1 -> rank c2 ->
  4 <= sum_hand [c1; c2] <= 21 /\ is_bust [c1; c2] = false.
Proof.
  intros [L1 H1] [L2 H2].
  assert (Hb : 4 <= sum_hand [c1; c2] <= 21).
  { unfold sum_hand. destruct (usable_ace [c1; c2]) eqn:E.
    - apply usable_ace_true in E. destruct E as [Hin Hle].
      rewrite !sum_cons, sum_nil in *. simpl in Hin. lia.
    - assert (Hno : ~ In 1 [c1; c2] \/ ~ sum [c1; c2] + 10 <= 21).
      { destruct (decide (In 1 [c1; c2])) as [Hin | Hin]; [| tauto].
        destruct (decide (sum [c1; c2] + 10 <= 21)) as [Hle | Hle]; [| tauto].
        assert (usable_ace [c1; c2] = true) by (apply usable_ace_true; tauto).
        congruence. }
      rewrite !sum_cons, sum_nil in *. simpl in Hno. lia. }
  split; [exact Hb |]. unfold is_bust. lia.
Qed.

Lemma rank_picked (c : Z) (cards s : list Z) :
  Forall rank cards ->
  In c (shoe_at_pick cards) -> remove_first c (shoe_at_pick cards) = Some s ->
  rank c /\ Forall rank s.
Proof.
  intros Hr Hin Hrm. pose proof (rank_shoe_at_pick cards Hr) as Hr'. split.
  - rewrite Forall_forall in Hr'. apply Hr', list_elem_of_In, Hin.
  - eapply remove_first_Forall; eassumption.
Qed.

Lemma picked_length (c : Z) (cards s : list Z) :
  (15 < length cards)%nat ->
  remove_first c (shoe_at_pick cards) = Some s ->
  length cards = S (length s).
Proof.
  intros Hbig Hrm. rewrite shoe_at_pick_big in Hrm by exact Hbig.
  apply remove_first_Some in Hrm. tauto.
Qed.

End NewRound.

(** X7. [reset()] never fails on an instance whose deck holds its literal.
    It makes four draws, the first two for the player, and puts the hands in
    two new list objects of two cards each; every list that existed before,
    the shoe apart, is left as it was.  The instance it leaves is
    well-formed and the observation shows the player's total, the dealer's
    first card and the usable-ace flag.  From a shoe of card values, both
    hands hold card values, neither is bust and the player's total is between
    4 and 21; a shoe of 19 cards or more loses exactly four cards. *)
Theorem reset_new_round (w : World) (cards : list Z) :
  heap w !! deck w = Some deck_literal ->
  heap w !! deck3 w = Some cards ->
  exists c1 c2 c3 c4 shoe' w',
    reset None w = (Ok (sum_hand [c1; c2], c3, usable_ace [c1; c2]), w') /\
    wf w' /\
    heap w' !! player w' = Some [c1; c2] /\
    heap w' !! dealer w' = Some [c3; c4] /\
    heap w' !! deck3 w' = Some shoe' /\
    (15 <= length shoe')%nat /\
    ~ allocated w (player w') /\ ~ allocated w (dealer w') /\
    grows w w' /\
    np_random w' = (fun k => np_random w (4 + k)%nat) /\
    (Forall rank cards ->
       ranked w' /\ is_bust [c1; c2] = false /\ is_bust [c3; c4] = false /\
       4 <= sum_hand [c1; c2] <= 21 /\ rank c3) /\
    ((19 <= length cards)%nat -> length cards = (4 + length shoe')%nat).
Proof.
  intros Hdeck Hshoe.
  destruct (reset_deals w cards Hdeck Hshoe)
    as (c1 & c2 & c3 & c4 & s1 & s2 & s3 & s4 & w' & Hrun & [I1 M1] & [I2 M2]
        & [I3 M3] & [I4 M4] & Hp & Hd & Hs & Hwf & G & Np & Nd & Hn).
  exists c1, c2, c3, c4, s4, w'.
  split; [exact Hrun |]. split; [exact Hwf |].
  split; [exact Hp |]. split; [exact Hd |]. split; [exact Hs |].
  split; [eapply remove_first_shoe_length, M4 |].
  split; [exact Np |]. split; [exact Nd |]. split; [exact G |].
  split; [exact Hn |].
  split.
  - intros Hr.
    destruct (rank_picked _ _ _ Hr I1 M1) as [R1 Hr1].
    destruct (rank_picked _ _ _ Hr1 I2 M2) as [R2 Hr2].
    destruct (rank_picked _ _ _ Hr2 I3 M3) as [R3 Hr3].
    destruct (rank_picked _ _ _ Hr3 I4 M4) as [R4 Hr4].
    destruct (two_card_total c1 c2 R1 R2) as [Hb1 Hn1].
    destruct (two_card_total c3 c4 R3 R4) as [_ Hn2].
    split; [| tauto].
    intros l v [-> | [-> | ->]] Hv.
    + rewrite Hs in Hv. injection Hv as <-. exact Hr4.
    + rewrite Hp in Hv. injection Hv as <-.
      constructor; [exact R1 | constructor; [exact R2 | constructor]].
    + rewrite Hd in Hv. injection Hv as <-.
      constructor; [exact R3 | constructor; [exact R4 | constructor]].
  - intros Hbig.
    assert (L1 : length cards = S (length s1))
      by (apply (picked_length c1); [lia | exact M1]).
    assert (L2 : length s1 = S (length s2))
      by (apply (picked_length c2); [lia | exact M2]).
    assert (L3 : length s2 = S (length s3))
      by (apply (picked_length c3); [lia | exact M3]).
    assert (L4 : length s3 = S (length s4))
      by (apply (picked_length c4); [lia | exact M4]).
    lia.
Qed.

Lemma reset_new_round_witness :
  exists c1 c2 c3 c4 shoe' w',
    reset None table = (Ok (sum_hand [c1; c2], c3, usable_ace [c1; c2]), w') /\
    wf w' /\
    heap w' !! player w' = Some [c1; c2] /\
    heap w' !! dealer w' = Some [c3; c4] /\
    heap w' !! deck3 w' = Some shoe' /\
    (15 <= length shoe')%nat.
Proof.
  destruct (reset_new_round table
              [2; 4; 6; 7; 8; 9; 10; 10; 10; 1; 2; 3; 4; 5; 6; 7; 8; 9; 10; 10;
               10; 10; 1; 2; 3; 4; 5; 6; 7; 8; 9; 10; 10; 10; 10]
              eq_refl eq_refl)
    as [c1 [c2 [c3 [c4 [shoe' [w' [H1 [H2 [H3 [H4 [H5 [H6 _]]]]]]]]]]]].
  exists c1, c2, c3, c4, shoe', w'.
  exact (conj H1 (conj H2 (conj H3 (conj H4 (conj H5 H6))))).
Defined.

(** X8. Whatever the flag and the random source, [__init__] succeeds and
    leaves a well-formed instance with the flag as given: the deck literal,
    a shoe of 35 cards (three decks less the four dealt), and two hands of
    two card values each, neither bust. *)
Theorem init_deals_first_round (flag : bool) (g : nat -> nat) :
  exists c1 c2 c3 c4 shoe w,
    __init__ flag (blank g) = (Ok tt, w) /\
    wf w /\ ranked w /\
    natural w = flag /\
    heap w !! player w = Some [c1; c2] /\
    heap w !! dealer w = Some [c3; c4] /\
    heap w !! deck3 w = Some shoe /\
    length shoe = 35%nat /\
    is_bust [c1; c2] = false /\ is_bust [c3; c4] = false /\
    np_random w = (fun k => g (4 + k)%nat).
Proof.
  set (w0 := with_deck3 1%nat
               (with_heap [deck_literal; list_mul deck_literal 3]
                  (with_deck O (with_natural flag (blank g))))).
  assert (Hr : Forall rank (list_mul deck_literal 3))
    by (simpl; repeat constructor; lia).
  destruct (reset_new_round w0 (list_mul deck_literal 3) eq_refl eq_refl)
    as [c1 [c2 [c3 [c4 [shoe [w [Hrun [Hwf [Hp [Hd [Hs [_ [_ [_ [G [Hn [Hrk Hlen]]]]]]]]]]]]]]]]].
  destruct (Hrk Hr) as [Hranked [Hb1 [Hb2 _]]].
  exists c1, c2, c3, c4, shoe, w.
  split.
  { change (__init__ flag (blank g)) with ((reset None ;; ret tt) w0).
    rewrite (bind_Ok _ _ _ _ _ Hrun). reflexivity. }
  split; [exact Hwf |]. split; [exact Hranked |].
  split; [destruct G as [_ [_ [_ [_ ->]]]]; reflexivity |].
  split; [exact Hp |]. split; [exact Hd |]. split; [exact Hs |].
  split; [assert (H := Hlen ltac:(simpl; lia)); simpl in H; lia |].
  split; [exact Hb1 |]. split; [exact Hb2 | exact Hn].
Qed.

(* ===================================================================== *)
(** ** Saving and restoring: [reset(state)] and [get_state] *)
(* ===================================================================== *)

Section Restore.

(** [get_state] on an instance whose hands and shoe are three objects. *)
Lemma get_state_fresh (w : World) (ph dh sh : list Z) :
  wf w ->
  heap w !! player w = Some ph ->
  heap w !! dealer w = Some dh ->
  heap w !! deck3 w = Some sh ->
  get_state w
  = (Ok (length (heap w), S (length (heap w)), S (S (length (heap w)))),
     with_heap (((heap w ++ [ph]) ++ [dh]) ++ [sh]) w).
Proof.
  intros Hwf Hp Hd Hs. use_wf Hwf.
  pose proof (lookup_lt_Some _ _ _ Hp) as Lp.
  pose proof (lookup_lt_Some _ _ _ Hd) as Ld.
  pose proof (lookup_lt_Some _ _ _ Hs) as Ls.
  unfold get_state. mrun. rewrite Hp. simpl.
  replace (dealer w =? player w)%nat with false
    by (symmetry; apply Nat.eqb_neq; congruence).
  replace (deck3 w =? player w)%nat with false
    by (symmetry; apply Nat.eqb_neq; congruence).
  replace (deck3 w =? dealer w)%nat with false
    by (symmetry; apply Nat.eqb_neq; congruence).
  simpl. rewrite snoc_old by exact Ld. rewrite Hd. simpl.
  rewrite snoc_old by (rewrite length_app; simpl; lia).
  rewrite snoc_old by exact Ls. rewrite Hs. simpl.
  rewrite !length_app. simpl.
  replace (length (heap w) + 1)%nat with (S (length (heap w))) by lia.
  replace (S (length (heap w)) + 1)%nat with (S (S (length (heap w)))) by lia.
  reflexivity.
Qed.


End Restore.


(** X10. Saving and restoring: on a well-formed instance, [get_state]
    followed by [reset] of its result gives a well-formed instance with the
    same hands and the same shoe, held in the three new lists, and the same
    observation as before.  The lists the instance had before are left as
    they were, and the random source is where it was: the snapshot does not
    record it. *)
Theorem get_state_reset_round_trip (w : World) (ph rest sh : list Z) (up : Z) :
  wf w ->
  heap w !! player w = Some ph ->
  heap w !! dealer w = Some (up :: rest) ->
  heap w !! deck3 w = Some sh ->
  exists snap w0 w1,
    get_state w = (Ok snap, w0) /\
    reset (Some snap) w0 = (Ok (sum_hand ph, up, usable_ace ph), w1) /\
    _get_obs w = (Ok (sum_hand ph, up, usable_ace ph), w) /\
    wf w1 /\
    heap w1 !! player w1 = Some ph /\
    heap w1 !! dealer w1 = Some (up :: rest) /\
    heap w1 !! deck3 w1 = Some sh /\
    ~ allocated w (player w1) /\ ~ allocated w (dealer w1) /\
    ~ allocated w (deck3 w1) /\
    (forall l, allocated w l -> heap w1 !! l = heap w !! l) /\
    np_random w1 = np_random w /\ natural w1 = natural w /\ deck w1 = deck w.
Proof.
  intros Hwf Hp Hd Hs. use_wf Hwf.
  set (n := length (heap w)).
  set (w0 := with_heap (((heap w ++ [ph]) ++ [up :: rest]) ++ [sh]) w).
  set (w1 := with_deck3 (S (S n)) (with_dealer (S n) (with_player n w0))).
  assert (Hp1 : heap w1 !! player w1 = Some ph).
  { unfold w1, w0. simpl.
    rewrite !snoc_old by (rewrite ?length_app; simpl; unfold n; lia).
    apply snoc_new. }
  assert (Hd1 : heap w1 !! dealer w1 = Some (up :: rest)).
  { unfold w1, w0. simpl.
    rewrite snoc_old by (rewrite ?length_app; simpl; unfold n; lia).
    apply list_lookup_middle. rewrite length_app. simpl. unfold n. lia. }
  assert (Hs1 : heap w1 !! deck3 w1 = Some sh).
  { unfold w1, w0. simpl.
    apply list_lookup_middle. rewrite !length_app. simpl. unfold n. lia. }
  assert (Hold : forall l, allocated w l -> heap w1 !! l = heap w !! l).
  { intros l Hl. unfold allocated in Hl. unfold w1, w0. simpl.
    rewrite !snoc_old by (rewrite ?length_app; simpl; lia). reflexivity. }
  exists (n, S n, S (S n)), w0, w1.
  split; [apply get_state_fresh; assumption |].
  split.
  { change (reset (Some (n, S n, S (S n))) w0) with (_get_obs w1).
    apply (get_obs_run w1 _ _ _ Hp1 Hd1). }
  split; [apply (get_obs_run w _ _ _ Hp Hd) |].
  split.
  { pose proof (lookup_lt_Some _ _ _ H) as Ldk.
    apply lookup_lt_Some in Hp1, Hd1, Hs1.
    unfold allocated in *.
    constructor; unfold allocated; try assumption;
      try (simpl; unfold n; lia).
    change (deck w1) with (deck w). rewrite Hold by exact Ldk. assumption. }
  split; [exact Hp1 |]. split; [exact Hd1 |]. split; [exact Hs1 |].
  unfold allocated. simpl. unfold n.
  repeat split; try lia. exact Hold.
Qed.

Lemma get_state_reset_round_trip_witness :
  exists snap w0 w1,
    get_state table = (Ok snap, w0) /\
    reset (Some snap) w0 = (Ok (sum_hand [1; 10], 5, usable_ace [1; 10]), w1) /\
    _get_obs table = (Ok (sum_hand [1; 10], 5, usable_ace [1; 10]), table) /\
    wf w1 /\
    heap w1 !! player w1 = Some [1; 10] /\
    heap w1 !! dealer w1 = Some [5; 3].
Proof.
  destruct (get_state_reset_round_trip table [1; 10] [3]
              [2; 4; 6; 7; 8; 9; 10; 10; 10; 1; 2; 3; 4; 5; 6; 7; 8; 9; 10; 10;
               10; 10; 1; 2; 3; 4; 5; 6; 7; 8; 9; 10; 10; 10; 10] 5
              table_wf eq_refl eq_refl eq_refl)
    as (snap & w0 & w1 & H1 & H2 & H3 & H4 & H5 & H6 & _).
  exists snap, w0, w1.
  exact (conj H1 (conj H2 (conj H3 (conj H4 (conj H5 H6))))).
Defined.

(* ===================================================================== *)
(** ** What every valid [step] keeps *)
(* ===================================================================== *)

Section StepInvariants.

Lemma hit_total_bound (h : list Z) (c : Z) :
  Forall rank h -> rank c -> sum_hand h <= 21 ->
  0 <= sum_hand (h ++ [c]) <= 31.
Proof.
  intros Hr [Hlo Hhi] Hok.
  pose proof (sum_rank_bounds h Hr) as Hb.
  pose proof (sum_le_sum_hand h) as Hle.
  pose proof (sum_snoc h c) as Hs.
  unfold sum_hand at 1 2. destruct (usable_ace (h ++ [c])) eqn:E.
  - apply usable_ace_true in E. lia.
  - lia.
Qed.

Lemma total_nonneg (h : list Z) : Forall rank h -> 0 <= sum_hand h.
Proof.
  intros Hr. pose proof (sum_rank_bounds h Hr). pose proof (sum_le_sum_hand h). lia.
Qed.

(** A card drawn into a hand keeps card values everywhere. *)
Lemma draw_into_hand_ranked (w w1 w2 : World) (l : loc) (v : list Z) (c : Z) :
  wf w -> ranked w ->
  l = player w \/ l = dealer w ->
  heap w !! l = Some v ->
  draw_card w = (Ok c, w1) ->
  append l c w1 = (Ok tt, w2) ->
  rank c /\ ranked w2 /\ wf w2 /\
  player w2 = player w /\ dealer w2 = dealer w /\
  natural w2 = natural w /\ deck w2 = deck w /\
  heap w2 !! l = Some (v ++ [c]) /\
  (forall l', l' <> l -> allocated w l' -> l' <> deck3 w ->
              heap w2 !! l' = heap w !! l').
Proof.
  intros Hwf Hrk Hl Hv Hdraw Happ.
  destruct (draw_into_hand w l v Hwf Hl Hv)
    as (c0 & w10 & w20 & Hdraw0 & D & Happ0 & Hw2 & Hwf2 & Hl2 & Hframe & Hs2).
  rewrite Hdraw in Hdraw0. injection Hdraw0 as <- <-.
  rewrite Happ in Happ0. injection Happ0 as <-.
  destruct (drew_card _ _ _ D) as (cards & shoe' & Hs0 & Hc & Hrm & Hs1 & _).
  assert (Hcards : Forall rank cards) by (apply (Hrk (deck3 w)); auto).
  destruct (rank_picked c cards shoe' Hcards
              ltac:(apply list_elem_of_In, list_elem_of_lookup; eauto) Hrm)
    as [Rc Rshoe].
  assert (Hp2 : player w2 = player w) by (rewrite Hw2; apply (drew_player _ _ _ D)).
  assert (Hd2 : dealer w2 = dealer w) by (rewrite Hw2; apply (drew_dealer _ _ _ D)).
  assert (Hv' : Forall rank (v ++ [c])).
  { apply Forall_app. split; [| constructor; [exact Rc | constructor]].
    destruct Hl as [-> | ->]; (eapply Hrk; [| exact Hv]; auto). }
  split; [exact Rc |].
  split.
  { use_wf Hwf. intros l' v' Hl' Hv2.
    destruct (decide (l' = l)) as [-> | Hne].
    - rewrite Hl2 in Hv2. injection Hv2 as <-. exact Hv'.
    - destruct Hl' as [-> | Hl'].
      + rewrite Hs2, Hs1 in Hv2. injection Hv2 as <-. exact Rshoe.
      + rewrite Hp2, Hd2 in Hl'.
        rewrite Hframe in Hv2; [| exact Hne | |].
        * apply (Hrk l' v'); [tauto | exact Hv2].
        * destruct Hl' as [-> | ->]; assumption.
        * destruct Hl' as [-> | ->]; congruence. }
  split; [exact Hwf2 |]. split; [exact Hp2 |]. split; [exact Hd2 |].
  split; [rewrite Hw2; apply (drew_natural _ _ _ D) |].
  split; [rewrite Hw2; apply (drew_deck _ _ _ D) |].
  split; [exact Hl2 | exact Hframe].
Qed.

Lemma dealer_plays_ranked (w w' : World) :
  dealer_plays w w' -> wf w -> ranked w -> ranked w'.
Proof.
  induction 1 as [w dh Hd Hsum | w dh c w1 w2 w3 Hd Hsum Hdraw Happ Hplay IH];
    intros Hwf Hrk; [exact Hrk |].
  destruct (draw_into_hand_ranked w w1 w2 (dealer w) dh c Hwf Hrk
              (or_intror eq_refl) Hd Hdraw Happ) as (_ & Hrk2 & Hwf2 & _).
  apply IH; assumption.
Qed.

(** The dealer's play from a known hand. *)
Lemma play_out_from (w : World) (ph dh : list Z) :
  wf w ->
  heap w !! player w = Some ph ->
  heap w !! dealer w = Some dh ->
  exists n w' ds,
    (forall fuel, (n <= fuel)%nat -> play_dealer fuel w = (Ok tt, w')) /\
    wf w' /\ (ranked w -> ranked w') /\
    player w' = player w /\ dealer w' = dealer w /\
    natural w' = natural w /\ deck w' = deck w /\
    heap w' !! player w' = Some ph /\
    heap w' !! dealer w' = Some (dh ++ ds) /\
    17 <= sum_hand (dh ++ ds).
Proof.
  intros Hwf Hp Hd.
  destruct (play_dealer_total w Hwf) as [n [w' [Hrun Hplay]]].
  destruct (dealer_plays_post w w' Hplay Hwf)
    as (Hwf' & Hpl & Hdl & Hn & Hdk & Hp' & dh0 & ds & Hd0 & Hd' & Hfin).
  rewrite Hd in Hd0. injection Hd0 as <-.
  exists n, w', ds.
  split; [intros fuel Hle; eapply play_dealer_mono; eassumption |].
  split; [exact Hwf' |].
  split; [intros Hrk; eapply dealer_plays_ranked; eassumption |].
  rewrite Hp', Hp. tauto.
Qed.

(** What [step] returns and leaves, for each of the three actions. *)
Lemma step_run (w : World) (action : Z) (ph rest : list Z) (up : Z) :
  wf w ->
  action = 0 \/ action = 1 \/ action = 2 ->
  heap w !! player w = Some ph ->
  heap w !! dealer w = Some (up :: rest) ->
  exists n cs ds reward done w',
    (forall fuel, (n <= fuel)%nat ->
       step fuel action w
       = (Ok ((sum_hand (ph ++ cs), up, usable_ace (ph ++ cs)), reward, done),
          w')) /\
    wf w' /\ (ranked w -> ranked w' /\ Forall rank cs) /\
    player w' = player w /\ dealer w' = dealer w /\
    natural w' = natural w /\ deck w' = deck w /\
    heap w' !! player w' = Some (ph ++ cs) /\
    heap w' !! dealer w' = Some ((up :: rest) ++ ds) /\
    (length cs <= 1)%nat /\
    (action = 0 -> cs = []) /\ (action = 1 -> ds = []) /\
    (action <> 1 -> 17 <= sum_hand ((up :: rest) ++ ds)) /\
    is_reward reward /\
    done = negb ((action =? 1) && negb (is_bust (ph ++ cs))).
Proof.
  intros Hwf Ha Hp Hd. destruct Ha as [-> | [-> | ->]].
  - (* stand *)
    destruct (play_out_from w ph (up :: rest) Hwf Hp Hd)
      as (n & w' & ds & Hrun & Hwf' & Hrk & Hpl & Hdl & Hn & Hdk & Hp' & Hd' & Hfin).
    set (r := cmp (score ph) (score ((up :: rest) ++ ds))).
    exists n, [], ds. rewrite app_nil_r.
    exists (if natural w && is_natural ph && PrimFloat.eqb r 1
            then 1.5%float else r).
    exists true, w'.
    split.
    { intros fuel Hle. unfold step. simpl.
      unfold bind at 1. unfold ret at 1. unfold bind at 1.
      rewrite (bind_Ok _ _ _ _ _ (Hrun fuel Hle)).
      unfold bind at 1, attr at 1. unfold bind at 1, load at 1. rewrite Hp'.
      unfold bind at 1, attr at 1. unfold bind at 1, load at 1. rewrite Hd'.
      unfold bind at 1, attr at 1. rewrite Hn. fold r.
      destruct (natural w && is_natural ph && PrimFloat.eqb r 1); unfold ret at 1;
        rewrite (bind_Ok _ _ _ _ _ (get_obs_run w' _ _ _ Hp' Hd')); reflexivity. }
    split; [exact Hwf' |].
    split; [intros H; split; [apply Hrk, H | constructor] |].
    do 4 (split; [assumption |]).
    split; [exact Hp' |]. split; [exact Hd' |].
    split; [simpl; lia |]. split; [reflexivity |]. split; [discriminate |].
    split; [intros _; exact Hfin |].
    split; [apply stand_reward_cases | reflexivity].
  - (* hit *)
    destruct (draw_into_hand w (player w) ph Hwf (or_introl eq_refl) Hp)
      as (c & w1 & w2 & Hdraw & D & Happ & Hw2 & _).
    assert (Hpl : player w2 = player w) by (rewrite Hw2; apply (drew_player _ _ _ D)).
    assert (Hdl : dealer w2 = dealer w) by (rewrite Hw2; apply (drew_dealer _ _ _ D)).
    destruct (draw_into_hand w (player w) ph Hwf (or_introl eq_refl) Hp)
      as (c' & w1' & w2' & Hdraw' & _ & Happ' & _ & Hwf2 & Hp2 & Hframe & _).
    rewrite Hdraw in Hdraw'. injection Hdraw' as <- <-.
    rewrite Happ in Happ'. injection Happ' as <-.
    assert (Hd2 : heap w2 !! dealer w2 = Some (up :: rest)).
    { rewrite Hdl, <- Hd. use_wf Hwf. apply Hframe; auto. }
    rewrite <- Hpl in Hp2.
    exists O, [c], [].
    exists (if is_bust (ph ++ [c]) then (-1)%float else 0%float).
    exists (is_bust (ph ++ [c])), w2.
    split.
    { intros fuel _. unfold step. simpl.
      unfold bind at 1. unfold ret at 1. unfold bind at 1.
      unfold bind at 1, attr at 1.
      rewrite (bind_Ok _ _ _ _ _ Hdraw), (bind_Ok _ _ _ _ _ Happ).
      unfold bind at 1, attr. unfold bind at 1, load. rewrite Hp2.
      destruct (is_bust (ph ++ [c])); unfold ret at 1;
        rewrite (bind_Ok _ _ _ _ _ (get_obs_run w2 _ _ _ Hp2 Hd2)); reflexivity. }
    split; [exact Hwf2 |].
    split.
    { intros Hrk.
      destruct (draw_into_hand_ranked w w1 w2 (player w) ph c Hwf Hrk
                  (or_introl eq_refl) Hp Hdraw Happ) as (Rc & Hrk2 & _).
      split; [exact Hrk2 | constructor; [exact Rc | constructor]]. }
    split; [exact Hpl |]. split; [exact Hdl |].
    split; [rewrite Hw2; apply (drew_natural _ _ _ D) |].
    split; [rewrite Hw2; apply (drew_deck _ _ _ D) |].
    split; [exact Hp2 |]. split; [rewrite app_nil_r; exact Hd2 |].
    split; [simpl; lia |]. split; [discriminate |]. split; [reflexivity |].
    split; [intros H; congruence |].
    split.
    { unfold is_reward. destruct (is_bust (ph ++ [c])); tauto. }
    simpl. rewrite negb_involutive. reflexivity.
  - (* double *)
    destruct (draw_into_hand w (player w) ph Hwf (or_introl eq_refl) Hp)
      as (c & w1 & w2 & Hdraw & D & Happ & Hw2 & Hwf2 & Hp2 & Hframe & _).
    assert (Hpl : player w2 = player w) by (rewrite Hw2; apply (drew_player _ _ _ D)).
    assert (Hdl : dealer w2 = dealer w) by (rewrite Hw2; apply (drew_dealer _ _ _ D)).
    assert (Hd2 : heap w2 !! dealer w2 = Some (up :: rest)).
    { rewrite Hdl, <- Hd. use_wf Hwf. apply Hframe; auto. }
    rewrite <- Hpl in Hp2.
    destruct (play_out_from w2 (ph ++ [c]) (up :: rest) Hwf2 Hp2 Hd2)
      as (n & w' & ds & Hrun & Hwf' & Hrk' & Hpl' & Hdl' & Hn' & Hdk' & Hp' & Hd'
          & Hfin).
    exists n, [c], ds.
    exists (PrimFloat.mul 2 (cmp (score (ph ++ [c])) (score ((up :: rest) ++ ds)))).
    exists true, w'.
    split.
    { intros fuel Hle. unfold step. simpl.
      unfold bind at 1. unfold ret at 1. unfold bind at 1.
      unfold bind at 1, attr at 1.
      rewrite (bind_Ok _ _ _ _ _ Hdraw), (bind_Ok _ _ _ _ _ Happ).
      rewrite (bind_Ok _ _ _ _ _ (Hrun fuel Hle)).
      unfold bind at 1, attr at 1. unfold bind at 1, load at 1. rewrite Hp'.
      unfold bind at 1, attr at 1. unfold bind at 1, load at 1. rewrite Hd'.
      unfold ret at 1.
      rewrite (bind_Ok _ _ _ _ _ (get_obs_run w' _ _ _ Hp' Hd')). reflexivity. }
    split; [exact Hwf' |].
    split.
    { intros Hrk.
      destruct (draw_into_hand_ranked w w1 w2 (player w) ph c Hwf Hrk
                  (or_introl eq_refl) Hp Hdraw Happ) as (Rc & Hrk2 & _).
      split; [apply Hrk', Hrk2 | constructor; [exact Rc | constructor]]. }
    split; [congruence |]. split; [congruence |].
    split; [rewrite Hn', Hw2; apply (drew_natural _ _ _ D) |].
    split; [rewrite Hdk', Hw2; apply (drew_deck _ _ _ D) |].
    split; [exact Hp' |]. split; [exact Hd' |].
    split; [simpl; lia |]. split; [discriminate |]. split; [discriminate |].
    split; [intros _; exact Hfin |].
    split; [| reflexivity].
    unfold is_reward.
    destruct (cmp_cases (score (ph ++ [c])) (score ((up :: rest) ++ ds)))
      as [[_ ->] | [[_ ->] | [_ ->]]]; vm_compute; tauto.
Qed.

End StepInvariants.

Lemma table_ranked : ranked table.
Proof.
  intros l v [-> | [-> | ->]] Hv; vm_compute in Hv; injection Hv as <-;
    repeat constructor; lia.
Qed.



(** X12. Card values stay card values, and observations stay inside the
    declared observation space: on a well-formed instance whose shoe and
    hands hold values 1 to 10 and whose player is not bust, after [step] with
    action 0, 1 or 2 the shoe and the hands still hold values 1 to 10, the
    player's total in the observation is in 0..31 ([Discrete(32)]) and the
    dealer's card in 1..10 ([Discrete(11)]). *)
Theorem step_observation_in_space
    (w : World) (action : Z) (ph rest : list Z) (up : Z) :
  wf w -> ranked w ->
  0 <= action <= 2 ->
  heap w !! player w = Some ph ->
  heap w !! dealer w = Some (up :: rest) ->
  is_bust ph = false ->
  exists n total ace reward done w',
    (forall fuel, (n <= fuel)%nat ->
       step fuel action w = (Ok ((total, up, ace), reward, done), w')) /\
    wf w' /\ ranked w' /\
    0 <= total < 32 /\ 1 <= up < 11.
Proof.
  intros Hwf Hrk Ha Hp Hd Hok.
  destruct (step_run w action ph rest up Hwf ltac:(lia) Hp Hd)
    as (n & cs & ds & reward & done & w' & Hrun & Hwf' & Hrk' & _ & _ & _ & _
        & _ & _ & Hlen & _).
  destruct (Hrk' Hrk) as [Hranked Hcs].
  assert (Hph : Forall rank ph) by (apply (Hrk (player w)); auto).
  assert (Hdh : Forall rank (up :: rest)) by (apply (Hrk (dealer w)); auto).
  assert (Hup : rank up) by (inversion Hdh; assumption).
  unfold is_bust in Hok.
  exists n, (sum_hand (ph ++ cs)), (usable_ace (ph ++ cs)), reward, done, w'.
  split; [exact Hrun |]. split; [exact Hwf' |]. split; [exact Hranked |].
  split; [| unfold rank in Hup; lia].
  destruct cs as [|c [|c' cs]]; [| | simpl in Hlen; lia].
  - rewrite app_nil_r. pose proof (total_nonneg ph Hph). lia.
  - inversion Hcs as [|? ? Rc _]; subst.
    pose proof (hit_total_bound ph c Hph Rc ltac:(lia)). lia.
Qed.

Lemma step_observation_in_space_witness :
  exists n total ace reward done w',
    (forall fuel, (n <= fuel)%nat ->
       step fuel 1 table = (Ok ((total, 5, ace), reward, done), w')) /\
    wf w' /\ ranked w' /\
    0 <= total < 32 /\ 1 <= 5 < 11.
Proof.
  exact (step_observation_in_space table 1 [1; 10] [3] 5 table_wf table_ranked
           ltac:(lia) eq_refl eq_refl eq_refl).
Defined.

(** X13. What a draw does to the shoe object.  A shoe of more than 15 cards
    is changed in place: the same list loses the drawn card.  A shoe of 15
    cards or fewer is given up: the cards left in it are not dealt, the old
    list is left as it was, and the shoe is a new list of 38 cards, three
    decks less the drawn card. *)
Theorem draw_card_shoe_object (w : World) (cards : list Z) :
  heap w !! deck w = Some deck_literal ->
  heap w !! deck3 w = Some cards ->
  exists c w' shoe',
    draw_card w = (Ok c, w') /\
    heap w' !! deck3 w' = Some shoe' /\
    ((15 < length cards)%nat ->
       deck3 w' = deck3 w /\ length (heap w') = length (heap w) /\
       Permutation cards (c :: shoe')) /\
    ((length cards <= 15)%nat ->
       ~ allocated w (deck3 w') /\
       heap w' !! deck3 w = Some cards /\
       length shoe' = 38%nat /\
       Permutation (deck_literal ++ deck_literal ++ deck_literal) (c :: shoe')).
Proof.
  intros Hdeck Hshoe.
  destruct (draw_card_drew w cards Hdeck Hshoe) as [c [w' [Hrun D]]].
  destruct (drew_card _ _ _ D) as (cards0 & shoe' & Hs0 & _ & Hrm & Hs' & Hcase).
  rewrite Hshoe in Hs0. injection Hs0 as <-.
  exists c, w', shoe'. split; [exact Hrun |]. split; [exact Hs' |].
  split.
  - intros Hbig. rewrite shoe_at_pick_big in Hrm by exact Hbig.
    apply Nat.leb_gt in Hbig. rewrite Hbig in Hcase.
    apply remove_first_Some in Hrm. tauto.
  - intros Hsmall. rewrite shoe_at_pick_small in Hrm by exact Hsmall.
    apply Nat.leb_le in Hsmall. rewrite Hsmall in Hcase.
    destruct Hcase as [Href Hlen].
    apply remove_first_Some in Hrm. destruct Hrm as [Hl Hperm].
    split; [unfold allocated; lia |].
    split.
    + rewrite (drew_frame _ _ _ D); [exact Hshoe |].
      apply lookup_lt_Some in Hshoe. lia.
    + split; [simpl in Hl; lia | exact Hperm].
Qed.

Lemma draw_card_shoe_object_witness :
  exists c w' shoe',
    draw_card table = (Ok c, w') /\
    heap w' !! deck3 w' = Some shoe' /\
    deck3 w' = deck3 table.
Proof.
  destruct (draw_card_shoe_object table
              [2; 4; 6; 7; 8; 9; 10; 10; 10; 1; 2; 3; 4; 5; 6; 7; 8; 9; 10; 10;
               10; 10; 1; 2; 3; 4; 5; 6; 7; 8; 9; 10; 10; 10; 10]
              eq_refl eq_refl) as (c & w' & shoe' & H1 & H2 & H3 & _).
  exists c, w', shoe'. split; [exact H1 |]. split; [exact H2 |].
  apply H3. simpl. lia.
Defined.
